(** * Heroku AppLink API-access sample (Node.js): a shallow embedding

    The program is one Express application: a [GET /] handler that fans a
    fixed query out over the configured connections, a [GET /bulk-demo]
    handler that submits a bulk insert and starts a detached monitor,
    [monitorBulkJob] itself, and two generators of synthetic data.

    The external collaborator (the AppLink SDK), [Math.random], [Date.now]
    and the scheduler of the event loop are inputs of the model; the
    JavaScript built-ins the program calls are written out in [Js]. *)

From Stdlib Require Import ZArith Ascii String List Lia DecimalString.
From stdpp Require Import base tactics option list strings gmap.

Local Open Scope Z_scope.

(** ** JavaScript built-ins used by the program

    Strings are sequences of code units; the model covers the code units
    below 256 (the Latin-1 range), which is all the program's own text. *)
Module Js.

(** Values that appear in the field bag of a record of the query engine. *)
Inductive Value : Type :=
| Undefined
| Null
| Bool (b : bool)
| Num (z : Z)
| Str (s : string).

(** An [Error] object: what the collaborator rejects with and what the
    runtime throws. *)
Record Error : Type := mkError { name : string; message : string }.

(** Result of an operation that may throw (or of a promise once settled). *)
Inductive Res (A : Type) : Type :=
| Ok (a : A)
| Err (e : Error).
Arguments Ok {A} a.
Arguments Err {A} e.

(** The [TypeError] of V8 for [undefined.p]. *)
Definition TypeError_undefined (p : string) : Error :=
  mkError "TypeError"
          ("Cannot read properties of undefined (reading '" +:+ p +:+ "')").

(** White space and line terminators, as [String.prototype.trim] sees them
    (TAB, LF, VT, FF, CR, SP, NBSP). *)
Definition is_whitespace (c : ascii) : bool :=
  let n := nat_of_ascii c in
  bool_decide (n ∈ [9; 10; 11; 12; 13; 32; 160]%nat).

Fixpoint trimStart (s : string) : string :=
  match s with
  | EmptyString => EmptyString
  | String c s' => if is_whitespace c then trimStart s' else s
  end.

Fixpoint trimEnd (s : string) : string :=
  match s with
  | EmptyString => EmptyString
  | String c s' =>
      match trimEnd s' with
      | EmptyString => if is_whitespace c then EmptyString else String c EmptyString
      | t => String c t
      end
  end.

(** [s.trim()] *)
Definition trim (s : string) : string := trimEnd (trimStart s).

(** [s.split(sep)] for a one-character separator: never the empty list. *)
Fixpoint split (sep : ascii) (s : string) : list string :=
  match s with
  | EmptyString => [EmptyString]
  | String c s' =>
      if decide (c = sep) then EmptyString :: split sep s'
      else match split sep s' with
           | piece :: rest => String c piece :: rest
           | [] => [String c EmptyString]
           end
  end.

(** [xs.includes(x)] on an array of strings (strict equality). *)
Definition includes (xs : list string) (x : string) : bool :=
  bool_decide (x ∈ xs).

(** [s.substring(a, b)]: the code units at positions [min a b .. max a b). *)
Definition substring (s : string) (a b : nat) : string :=
  String.substring (Nat.min a b) (Nat.max a b - Nat.min a b) s.

(** [s.slice(-n)]: the last [n] code units, the whole string when shorter. *)
Definition slice_last (s : string) (n : nat) : string :=
  String.substring (String.length s - n) n s.

Definition upper (c : ascii) : ascii :=
  let n := nat_of_ascii c in
  if (97 <=? n)%nat && (n <=? 122)%nat then ascii_of_nat (n - 32) else c.

(** [s.toUpperCase()] on ASCII text (a radix-36 numeral in the program). *)
Fixpoint toUpperCase (s : string) : string :=
  match s with
  | EmptyString => EmptyString
  | String c s' => String (upper c) (toUpperCase s')
  end.

(** [n.toString()] of an integer. *)
Definition toString (n : Z) : string := NilEmpty.string_of_int (Z.to_int n).

(** A value inside a template literal. *)
Definition interpolate (o : option string) : string :=
  match o with
  | Some s => s
  | None => "undefined"
  end.

(** One result of [Math.random()]: the double [mantissa mod 2^53 / 2^53],
    which lies in [0, 1), together with the digits after the point of its
    [toString(36)] rendering (each taken modulo 36). *)
Record Draw : Type := mkDraw { mantissa : Z; radix36 : list nat }.

(** [Math.floor(Math.random() * n)], the product taken exactly. *)
Definition floor_scaled (d : Draw) (n : Z) : Z :=
  (mantissa d mod 2 ^ 53) * n / 2 ^ 53.

Definition digit36 (d : nat) : ascii :=
  match String.get (d mod 36) "0123456789abcdefghijklmnopqrstuvwxyz" with
  | Some c => c
  | None => "0"%char
  end.

(** [Math.random().toString(36)]: ["0"] for zero, otherwise ["0."] and
    the digits. *)
Definition toString36 (d : Draw) : string :=
  match radix36 d with
  | [] => "0"
  | ds => "0." +:+ string_of_list_ascii (map digit36 ds)
  end.

(** [xs[Math.floor(Math.random() * xs.length)]]; [undefined] out of range. *)
Definition pick {A : Type} (xs : list A) (d : Draw) : option A :=
  xs !! Z.to_nat (floor_scaled d (Z.of_nat (length xs))).

End Js.
Export Js(Res, Ok, Err).

(** Exceptions as a monad: [Err] is a thrown [Error]. *)
Global Instance Res_ret : MRet Res := λ A a, Ok a.
Global Instance Res_bind : MBind Res := λ A B f r,
  match r with
  | Ok a => f a
  | Err e => Err e
  end.

(** ** The collaborator: what the AppLink SDK hands to the program *)
Module AppLink.

(** A record of the query engine, [{fields: {...}}]; a malformed record
    has no [fields]. *)
Record SfRecord : Type := mkRecord { fields : option (gmap string Js.Value) }.

Record QueryResult : Type :=
  mkQueryResult { totalSize : Z; done : bool; records : list SfRecord }.

(** The job handle returned by [bulkApi.ingest]. *)
Record JobRef : Type := mkJobRef { job_id : string }.

(** One status snapshot of a bulk job. *)
Record JobInfo : Type :=
  mkJobInfo { state : string;
              numberRecordsProcessed : Z;
              numberRecordsFailed : Z }.

Definition FailedResults : Type := list (gmap string Js.Value).

(** The table built by [createDataTableBuilder(columns)], [addRow], [build]. *)
Record DataTable : Type :=
  mkDataTable { columns : list string; rows : list (gmap string Js.Value) }.

Record IngestRequest : Type :=
  mkIngest { object : string; operation : string; dataTable : DataTable }.

(** An authorized org session. Its methods are asynchronous calls into a
    world [W] outside the program: each takes the world at the moment the
    call completes and returns the next world with the settled result. A
    job handle is [None] where the program passes [undefined]. *)
Record Org (W : Type) : Type := mkOrg {
  id : string;
  user_username : string;
  dataApi_query : string -> W -> W * Res QueryResult;
  bulkApi_ingest : IngestRequest -> W -> W * Res (list JobRef);
  bulkApi_getInfo : option JobRef -> W -> W * Res JobInfo;
  bulkApi_getFailedResults : option JobRef -> W -> W * Res FailedResults
}.
Arguments mkOrg {W}.
Arguments id {W}.
Arguments user_username {W}.
Arguments dataApi_query {W}.
Arguments bulkApi_ingest {W}.
Arguments bulkApi_getInfo {W}.
Arguments bulkApi_getFailedResults {W}.

(** [sdk.addons.applink] *)
Record Sdk (W : Type) : Type := mkSdk {
  getAuthorization : string -> W -> W * Res (Org W)
}.
Arguments mkSdk {W}.
Arguments getAuthorization {W}.

End AppLink.

(** ** What the program produces *)

(** A Query Result Row, the object literal [{Name: ..., Id: ...}]. *)
Abbreviation Row := (gmap string Js.Value).

(** A Per-Connection Outcome; [error] is absent in the success shape. *)
Record PerConnectionOutcome : Type := mkOutcome {
  connectionName : string;
  error : option string;
  accounts : list Row
}.

(** [console.log] or [console.error]. *)
Inductive Level : Type :=
| console_log
| console_error.

(** The lines written to the console, one constructor per statement. *)
Inductive ConsoleEntry : Type :=
| Connected_to_Salesforce_org (orgId username : string)
| Query_results (totalSize : Z) (done : bool) (recordCount : nat)
| Error_querying_org (connectionName : string) (error : Js.Error)
| Error_rendering_index (error : Js.Error)
| Connected_to_empty_org (orgId username : string)
| Starting_Bulk_API_process
| Error_in_bulk_demo (error : Js.Error)
| Bulk_job_status (id state : string) (numberRecordsProcessed numberRecordsFailed : Z)
| Failed_records (failedResults : AppLink.FailedResults)
| Job_completed_successfully (id : string) (numberRecordsProcessed : Z)
| Job_ended_in_state (id state : string)
| Error_monitoring_bulk_job (error : Js.Error).

(** The effects of a run, in the order they happen. *)
Inductive Event : Type :=
| Call_getAuthorization (key : string)
| Call_query (orgId soql : string)
| Call_ingest (orgId : string) (request : AppLink.IngestRequest)
| Call_getInfo (job : option AppLink.JobRef)
| Call_getFailedResults (job : option AppLink.JobRef)
| SetTimeout (ms : Z)
| Console (level : Level) (entry : ConsoleEntry)
| Start_monitorBulkJob (orgId : string) (job : option AppLink.JobRef).

(** What a handler sends back. *)
Inductive Response : Type :=
| Render (view : string) (accountsByOrg : list PerConnectionOutcome)
| Send (status : Z) (body : string)
| Json (body : list (string * Js.Value)).

(** The request as Express hands it to a handler: its URL query parameters. *)
Record Request : Type := mkRequest { req_query : gmap string string }.

(** What the process reads from outside itself: the SDK, the random source
    ([random_at i] is the [i]-th [Math.random()] of the run), the clock
    ([now_at i] is what [Date.now()] returns once [i] draws are taken) and
    the environment variable. *)
Record Host (W : Type) : Type := mkHost {
  sdk : AppLink.Sdk W;
  random_at : nat -> Js.Draw;
  now_at : nat -> Z;
  CONNECTION_NAMES : option string
}.
Arguments mkHost {W}.
Arguments sdk {W}.
Arguments random_at {W}.
Arguments now_at {W}.
Arguments CONNECTION_NAMES {W}.

(** The state a run threads: the outside world, the number of random
    draws taken and the effects so far. *)
Record State (W : Type) : Type := mkState {
  world : W;
  drawn : nat;
  trace : list Event
}.
Arguments mkState {W}.
Arguments world {W}.
Arguments drawn {W}.
Arguments trace {W}.

(** ** Sequential code: state passing with exceptions *)
Definition M (W A : Type) : Type := State W -> State W * Res A.

Global Instance M_ret {W} : MRet (M W) := λ A a st, (st, Ok a).
Global Instance M_bind {W} : MBind (M W) := λ A B f m st,
  match m st with
  | (st', Ok a) => f a st'
  | (st', Err e) => (st', Err e)
  end.

Definition lift {W A} (r : Res A) : M W A := λ st, (st, r).

(** [try { body } catch (error) { handler }] *)
Definition try_catch {W A} (body : M W A) (handler : Js.Error -> M W A) : M W A :=
  λ st,
  match body st with
  | (st', Ok a) => (st', Ok a)
  | (st', Err e) => handler e st'
  end.

Definition emit {W} (e : Event) : M W unit :=
  λ st, (mkState (world st) (drawn st) (trace st ++ [e]), Ok tt).

(** [await call]: the call is issued, the world answers, a rejection is
    rethrown. *)
Definition await {W A} (issued : Event) (call : W -> W * Res A) : M W A :=
  λ st,
  let '(w, r) := call (world st) in
  (mkState w (drawn st) (trace st ++ [issued]), r).

(** [Math.random()] *)
Definition Math_random {W} (h : Host W) : M W Js.Draw :=
  λ st, (mkState (world st) (S (drawn st)) (trace st), Ok (random_at h (drawn st))).

(** [Date.now()] *)
Definition Date_now {W} (h : Host W) : M W Z :=
  λ st, (st, Ok (now_at h (drawn st))).

(** [process.env.CONNECTION_NAMES ? process.env.CONNECTION_NAMES.split(',') : []] *)
Definition connectionNames {W} (h : Host W) : list string :=
  match CONNECTION_NAMES h with
  | None => []
  | Some EmptyString => []
  | Some s => Js.split "," s
  end.

(** ** [GET /]: the query fanned out over the connections *)

Definition SOQL_ACCOUNTS : string := "SELECT Name, Id FROM Account".

(** [bag.p]: [undefined] for a property the bag does not have. *)
Definition property (bag : gmap string Js.Value) (p : string) : Js.Value :=
  default Js.Undefined (bag !! p).

(** [(record) => ({ Name: record.fields.Name, Id: record.fields.Id })] *)
Definition project (record : AppLink.SfRecord) : Res Row :=
  match AppLink.fields record with
  | None => Err (Js.TypeError_undefined "Name")
  | Some bag => Ok (<["Id" := property bag "Id"]> (<["Name" := property bag "Name"]> ∅))
  end.

(** Where the async closure of one connection stands: suspended at one of
    its two [await]s, or settled. *)
Inductive Stage (W : Type) : Type :=
| AwaitAuthorization
| AwaitQuery (org : AppLink.Org W)
| Fulfilled (outcome : PerConnectionOutcome)
| Rejected (e : Js.Error).
Arguments AwaitAuthorization {W}.
Arguments AwaitQuery {W} org.
Arguments Fulfilled {W} outcome.
Arguments Rejected {W} e.

(** The [catch (error)] block of the closure. *)
Definition on_error {W} (name : string) (err : Js.Error) : M W (Stage W) :=
  emit (Console console_error (Error_querying_org name err));;
  mret (Fulfilled (mkOutcome (Js.trim name) (Some (Js.message err)) [])).

(** The closure up to its first [await]: the call is issued. *)
Definition begin_closure {W} (name : string) : M W (Stage W) :=
  try_catch
    (emit (Call_getAuthorization (Js.trim name));;
     mret AwaitAuthorization)
    (on_error name).

(** From the first [await] to the second, inside the [try]. *)
Definition after_getAuthorization {W} (name : string)
    (settled : Res (AppLink.Org W)) : M W (Stage W) :=
  try_catch
    (org ← lift settled;
     emit (Console console_log (Connected_to_Salesforce_org (AppLink.id org) (AppLink.user_username org)));;
     emit (Call_query (AppLink.id org) SOQL_ACCOUNTS);;
     mret (AwaitQuery org))
    (on_error name).

(** From the second [await] to the [return], inside the [try]. *)
Definition after_query {W} (name : string)
    (settled : Res AppLink.QueryResult) : M W (Stage W) :=
  try_catch
    (queryResult ← lift settled;
     emit (Console console_log (Query_results (AppLink.totalSize queryResult)
                                  (AppLink.done queryResult)
                                  (length (AppLink.records queryResult))));;
     accts ← lift (mapM project (AppLink.records queryResult));
     mret (Fulfilled (mkOutcome (Js.trim name) None accts)))
    (on_error name).

(** An exception that leaves an async function rejects its promise. *)
Definition settle {W} (segment : M W (Stage W)) (st : State W) : State W * Stage W :=
  match segment st with
  | (st', Ok s) => (st', s)
  | (st', Err e) => (st', Rejected e)
  end.

Record Closure (W : Type) : Type := mkClosure { captured : string; stage : Stage W }.
Arguments mkClosure {W}.
Arguments captured {W}.
Arguments stage {W}.

Inductive Promise (A : Type) : Type :=
| Pending
| Resolved (a : A)
| RejectedWith (e : Js.Error).
Arguments Pending {A}.
Arguments Resolved {A} a.
Arguments RejectedWith {A} e.

(** The handler while it runs: the promises of [connectionNames.map(...)]
    by position, the promise of [Promise.all] and the response once sent. *)
Record FanOut (W : Type) : Type := mkFanOut {
  run_state : State W;
  closures : list (Closure W);
  all : Promise (list PerConnectionOutcome);
  response : option Response
}.
Arguments mkFanOut {W}.
Arguments run_state {W}.
Arguments closures {W}.
Arguments all {W}.
Arguments response {W}.

Definition fulfilled_value {W} (c : Closure W) : option PerConnectionOutcome :=
  match stage c with
  | Fulfilled o => Some o
  | _ => None
  end.

(** [Promise.all]: rejected by the first rejection, resolved with the
    values by position once every promise is fulfilled. *)
Definition Promise_all {W} (before : Promise (list PerConnectionOutcome))
    (cs : list (Closure W)) (latest : Stage W) : Promise (list PerConnectionOutcome) :=
  match before with
  | Pending =>
      match latest with
      | Rejected e => RejectedWith e
      | Fulfilled _ =>
          match mapM fulfilled_value cs with
          | Some values => Resolved values
          | None => Pending
          end
      | _ => Pending
      end
  | settled => settled
  end.

(** The handler after [await Promise.all(...)], with its own [try]/[catch]. *)
Definition after_all {W} (settled : Res (list PerConnectionOutcome)) : M W Response :=
  try_catch
    (accountsByOrg ← lift settled;
     mret (Render "pages/index" accountsByOrg))
    (λ err,
       emit (Console console_error (Error_rendering_index err));;
       mret (Send 500 (Js.message err))).

Definition respond {W} (before after : Promise (list PerConnectionOutcome))
    (st : State W) : State W * option Response :=
  match before, after with
  | Pending, Resolved values =>
      let '(st', r) := after_all (Ok values) st in
      (st', match r with Ok resp => Some resp | Err _ => None end)
  | Pending, RejectedWith e =>
      let '(st', r) := after_all (Err e) st in
      (st', match r with Ok resp => Some resp | Err _ => None end)
  | _, _ => (st, None)
  end.

(** [connectionNames.map(async (connectionName) => ...)]: each closure runs
    to its first [await], in the order of the names. *)
Fixpoint map_closures {W} (names : list string) (st : State W)
    : State W * list (Closure W) :=
  match names with
  | [] => (st, [])
  | name :: rest =>
      let '(st1, s) := settle (begin_closure name) st in
      let '(st2, cs) := map_closures rest st1 in
      (st2, mkClosure name s :: cs)
  end.

Definition with_world {W} (w : W) (st : State W) : State W :=
  mkState w (drawn st) (trace st).

(** The pending call of closure [i] completes and the closure runs on to its
    next [await] or to its end; a closure that is settled has no pending call. *)
Definition resume {W} (h : Host W) (i : nat) (st : State W) (cs : list (Closure W))
    : State W * option (Stage W) :=
  match cs !! i with
  | Some (mkClosure name AwaitAuthorization) =>
      let '(w, settled) := AppLink.getAuthorization (sdk h) (Js.trim name) (world st) in
      let '(st', s) := settle (after_getAuthorization name settled) (with_world w st) in
      (st', Some s)
  | Some (mkClosure name (AwaitQuery org)) =>
      let '(w, settled) := AppLink.dataApi_query org SOQL_ACCOUNTS (world st) in
      let '(st', s) := settle (after_query name settled) (with_world w st) in
      (st', Some s)
  | _ => (st, None)
  end.

Definition advance {W} (h : Host W) (fo : FanOut W) (i : nat) : FanOut W :=
  match resume h i (run_state fo) (closures fo) with
  | (st, Some s) =>
      let cs :=
        match closures fo !! i with
        | Some c => <[i := mkClosure (captured c) s]> (closures fo)
        | None => closures fo
        end in
      let all' := Promise_all (all fo) cs s in
      let '(st', sent) := respond (all fo) all' st in
      mkFanOut st' cs all'
               (match response fo with Some r => Some r | None => sent end)
  | (_, None) => fo
  end.

(** The handler from the request to the moment [Promise.all] is awaited. *)
Definition begin_index {W} (h : Host W) (w0 : W) : FanOut W :=
  let '(st, cs) := map_closures (connectionNames h) (mkState w0 0%nat []) in
  let all0 : Promise (list PerConnectionOutcome) :=
    match mapM fulfilled_value cs with
    | Some values => Resolved values
    | None => Pending
    end in
  let '(st', sent) := respond Pending all0 st in
  mkFanOut st' cs all0 sent.

(** [app.get('/', async (req, res) => ...)] run with the pending calls
    completing in the order [schedule] gives (each entry is the position of
    a connection). The handler does not read [req]. *)
Definition get_index {W} (h : Host W) (req : Request) (w0 : W) (schedule : list nat)
    : FanOut W :=
  foldl (advance h) (begin_index h w0) schedule.

(** ** Synthetic data *)

Definition businessTypes : list string :=
  ["Tech"; "Global"; "Advanced"; "Innovative"; "Strategic"; "Premier"; "Elite";
   "Dynamic"; "Pacific"; "Atlantic"; "Modern"; "Future"; "Smart"; "Connected";
   "Digital"; "Quantum"; "Unified"; "Integrated"; "Precision"; "Summit"].

Definition businessNames : list string :=
  ["Solutions"; "Systems"; "Enterprises"; "Industries"; "Dynamics"; "Partners";
   "Networks"; "Technologies"; "Services"; "Innovations"; "Analytics";
   "Consulting"; "Operations"; "Group"; "Corporation"; "Associates";
   "International"; "Management"; "Ventures"; "Labs"].

Definition industries : list string :=
  ["Manufacturing"; "Software"; "Healthcare"; "Logistics"; "Energy";
   "Communications"; "Engineering"; "Research"; "Development"; "Robotics"].

Definition streetTypes : list string :=
  ["Street"; "Avenue"; "Boulevard"; "Road"; "Drive"; "Lane"; "Way"; "Circle";
   "Court"; "Place"; "Square"; "Terrace"; "Parkway"; "Plaza"].

Definition streetNames : list string :=
  ["Maple"; "Oak"; "Cedar"; "Pine"; "Elm"; "Washington"; "Lincoln"; "Park";
   "Lake"; "River"; "Mountain"; "Valley"; "Forest"; "Meadow"; "Spring";
   "Sunset"; "Highland"; "Madison"; "Jefferson"; "Franklin"].

Definition cities : list string :=
  ["San Francisco"; "New York"; "Chicago"; "Los Angeles"; "Seattle"; "Boston";
   "Austin"; "Denver"; "Miami"; "Portland"; "Atlanta"; "Dallas"; "Houston";
   "Phoenix"; "Minneapolis"].

Record UsState : Type := mkUsState { state_name : string; abbr : string }.

Definition states : list UsState :=
  [mkUsState "California" "CA"; mkUsState "New York" "NY"; mkUsState "Texas" "TX";
   mkUsState "Florida" "FL"; mkUsState "Illinois" "IL"; mkUsState "Washington" "WA";
   mkUsState "Massachusetts" "MA"; mkUsState "Colorado" "CO";
   mkUsState "Oregon" "OR"; mkUsState "Georgia" "GA"].

(** The object [generateAddress] returns; [city] is [None] for [undefined]. *)
Record Address : Type := mkAddress {
  street : string;
  city : option string;
  addr_state : string;
  stateAbbr : string;
  zip : string
}.

Definition generateAddress {W} (h : Host W) : M W Address :=
  d1 ← Math_random h;
  let streetNumber := Js.floor_scaled d1 9900 + 100 in
  d2 ← Math_random h;
  let streetName := Js.pick streetNames d2 in
  d3 ← Math_random h;
  let streetType := Js.pick streetTypes d3 in
  d4 ← Math_random h;
  let city_ := Js.pick cities d4 in
  d5 ← Math_random h;
  let state_ := Js.pick states d5 in
  d6 ← Math_random h;
  let zip_ := Js.floor_scaled d6 90000 + 10000 in
  st ← lift (match state_ with
             | Some s => Ok s
             | None => Err (Js.TypeError_undefined "name")
             end);
  mret (mkAddress
          (Js.toString streetNumber +:+ " " +:+ Js.interpolate streetName
             +:+ " " +:+ Js.interpolate streetType)
          city_ (state_name st) (abbr st) (Js.toString zip_)).

Definition generateBusinessName {W} (h : Host W) : M W string :=
  d1 ← Math_random h;
  let type := Js.interpolate (Js.pick businessTypes d1) in
  d2 ← Math_random h;
  let name := Js.interpolate (Js.pick businessNames d2) in
  d3 ← Math_random h;
  let industry := Js.interpolate (Js.pick industries d3) in
  now ← Date_now h;
  let timestamp := Js.slice_last (Js.toString now) 4 in
  d4 ← Math_random h;
  let randomSuffix := Js.toUpperCase (Js.substring (Js.toString36 d4) 2 5) in
  let formats :=
    ["Bulk Account " +:+ type +:+ " " +:+ name +:+ " " +:+ randomSuffix;
     "Bulk Account " +:+ type +:+ " " +:+ industry +:+ " " +:+ randomSuffix;
     "Bulk Account " +:+ industry +:+ " " +:+ name +:+ " " +:+ timestamp;
     "Bulk Account " +:+ type +:+ " " +:+ name +:+ " " +:+ industry
        +:+ " " +:+ randomSuffix] in
  d5 ← Math_random h;
  generatedName ← lift (match Js.pick formats d5 with
                        | Some s => Ok s
                        | None => Err (Js.TypeError_undefined "length")
                        end);
  if (255 <? String.length generatedName)%nat
  then mret ("Bulk Account " +:+ type +:+ " " +:+ randomSuffix)
  else mret generatedName.

(** ** [GET /bulk-demo] *)

Definition BULK_NAME_PATTERN : string := "Bulk Account%".

Definition SOQL_BULK_ACCOUNTS : string :=
  "SELECT Id FROM Account WHERE Name LIKE '" +:+ BULK_NAME_PATTERN +:+ "'".

Definition optional (o : option string) : Js.Value :=
  match o with
  | Some s => Js.Str s
  | None => Js.Undefined
  end.

(** The body of [for (let i = 1; i <= 1000; i++)], [n] rounds of it. *)
Fixpoint add_rows {W} (h : Host W) (n : nat) (built : list (gmap string Js.Value))
    : M W (list (gmap string Js.Value)) :=
  match n with
  | O => mret built
  | S n' =>
      address ← generateAddress h;
      nm ← generateBusinessName h;
      let record :=
        <["BillingCountry" := Js.Str "United States"]>
        (<["BillingPostalCode" := Js.Str (zip address)]>
        (<["BillingState" := Js.Str (addr_state address)]>
        (<["BillingCity" := optional (city address)]>
        (<["BillingStreet" := Js.Str (street address)]>
        (<["Name" := Js.Str nm]> ∅))))) in
      add_rows h n' (built ++ [record])
  end.

Definition bulk_columns : list string :=
  ["Name"; "BillingStreet"; "BillingCity"; "BillingState"; "BillingPostalCode";
   "BillingCountry"].

(** [app.get('/bulk-demo', async (req, res) => ...)]. The monitor is started
    and not awaited: the handler only records that it started it. *)
Definition get_bulk_demo {W} (h : Host W) (req : Request) : M W Response :=
  try_catch
    (let emptyOrgName := "empty-org" in
     if negb (Js.includes (connectionNames h) emptyOrgName)
     then mret (Send 400 "empty-org connection not found")
     else
       org ← await (Call_getAuthorization emptyOrgName)
                   (AppLink.getAuthorization (sdk h) emptyOrgName);
       emit (Console console_log (Connected_to_empty_org (AppLink.id org) (AppLink.user_username org)));;
       queryResult ← await (Call_query (AppLink.id org) SOQL_BULK_ACCOUNTS)
                           (AppLink.dataApi_query org SOQL_BULK_ACCOUNTS);
       emit (Console console_log (Query_results (AppLink.totalSize queryResult)
                                    (AppLink.done queryResult)
                                    (length (AppLink.records queryResult))));;
       if (length (AppLink.records queryResult) =? 0)%nat
       then
         emit (Console console_log Starting_Bulk_API_process);;
         table ← add_rows h 1000 [];
         let request :=
           AppLink.mkIngest "Account" "insert" (AppLink.mkDataTable bulk_columns table) in
         ingestResults ← await (Call_ingest (AppLink.id org) request)
                               (AppLink.bulkApi_ingest org request);
         emit (Start_monitorBulkJob (AppLink.id org) (ingestResults !! 0%nat));;
         job ← lift (match ingestResults !! 0%nat with
                     | Some j => Ok j
                     | None => Err (Js.TypeError_undefined "id")
                     end);
         mret (Json [("message", Js.Str "Bulk insert job started");
                     ("jobId", Js.Str (AppLink.job_id job))])
       else
         mret (Json [("message",
                      Js.Str ("Found "
                                +:+ Js.toString (Z.of_nat (length (AppLink.records queryResult)))
                                +:+ " existing bulk-created records"));
                     ("status", Js.Str "EXISTING_RECORDS")]))
    (λ err,
       emit (Console console_error (Error_in_bulk_demo err));;
       mret (Send 500 (Js.message err))).

(** ** [monitorBulkJob] *)

Definition TERMINAL_STATES : list string := ["JobComplete"; "Failed"; "Aborted"].

(** [result.id]; a [TypeError] when [result] is [undefined]. *)
Definition result_id (result : option AppLink.JobRef) : Res string :=
  match result with
  | Some r => Ok (AppLink.job_id r)
  | None => Err (Js.TypeError_undefined "id")
  end.

(** One round of the [while] body; the value is the new [isComplete]. *)
Definition monitor_round {W} (org : AppLink.Org W) (result : option AppLink.JobRef)
    : M W bool :=
  jobInfo ← await (Call_getInfo result) (AppLink.bulkApi_getInfo org result);
  jid ← lift (result_id result);
  emit (Console console_log (Bulk_job_status jid (AppLink.state jobInfo)
                   (AppLink.numberRecordsProcessed jobInfo)
                   (AppLink.numberRecordsFailed jobInfo)));;
  let isComplete := Js.includes TERMINAL_STATES (AppLink.state jobInfo) in
  if isComplete
  then
    (if String.eqb (AppLink.state jobInfo) "JobComplete"
     then
       if 0 <? AppLink.numberRecordsFailed jobInfo
       then
         failedResults ← await (Call_getFailedResults result)
                               (AppLink.bulkApi_getFailedResults org result);
         emit (Console console_error (Failed_records failedResults))
       else
         emit (Console console_log (Job_completed_successfully jid
                          (AppLink.numberRecordsProcessed jobInfo)))
     else
       emit (Console console_error (Job_ended_in_state jid (AppLink.state jobInfo))));;
    mret isComplete
  else
    emit (SetTimeout 5000);;
    mret isComplete.

(** How a run of the monitor stands after a bounded number of rounds. *)
Inductive MonitorStatus : Type :=
| Returned
| StillPolling.

(** [let isComplete = false; while (!isComplete) { ... }], at most [fuel]
    rounds of it. *)
Fixpoint while_not_complete {W} (fuel : nat) (round : M W bool) : M W MonitorStatus :=
  match fuel with
  | O => mret StillPolling
  | S fuel' =>
      round ≫= λ isComplete : bool,
        if isComplete then mret Returned else while_not_complete fuel' round
  end.

Definition monitorBulkJob {W} (fuel : nat) (org : AppLink.Org W)
    (result : option AppLink.JobRef) : M W MonitorStatus :=
  try_catch
    (while_not_complete fuel (monitor_round org result))
    (λ err,
       emit (Console console_error (Error_monitoring_bulk_job err));;
       mret Returned).

(** ** The query language's [LIKE], as the existence check relies on it

    [%] stands for any run of characters, [_] for any one character, and
    letters compare without regard to case. *)
Module Soql.

Definition lower (c : ascii) : ascii :=
  let n := nat_of_ascii c in
  if (65 <=? n)%nat && (n <=? 90)%nat then ascii_of_nat (n + 32) else c.

Fixpoint like_chars (p : list ascii) : list ascii -> bool :=
  match p with
  | [] => λ s, match s with [] => true | _ => false end
  | c :: p' =>
      if decide (c = "%"%char)
      then fix any (s : list ascii) : bool :=
             like_chars p' s
             || match s with
                | [] => false
                | _ :: s' => any s'
                end
      else λ s,
           match s with
           | [] => false
           | d :: s' =>
               (bool_decide (c = "_"%char) || bool_decide (lower c = lower d))
               && like_chars p' s'
           end
  end.

(** [s LIKE pattern] *)
Definition like (s pattern : string) : bool :=
  like_chars (list_ascii_of_string pattern) (list_ascii_of_string s).

End Soql.

(** ** Observations on a trace *)

Definition is_getInfo (e : Event) : bool :=
  match e with Call_getInfo _ => true | _ => false end.

Definition is_getFailedResults (e : Event) : bool :=
  match e with Call_getFailedResults _ => true | _ => false end.

Definition is_timeout (e : Event) : bool :=
  match e with SetTimeout _ => true | _ => false end.

Definition is_success_log (e : Event) : bool :=
  match e with Console _ (Job_completed_successfully _ _) => true | _ => false end.

Definition is_getAuthorization (e : Event) : bool :=
  match e with Call_getAuthorization _ => true | _ => false end.

Definition count_events (p : Event -> bool) (t : list Event) : nat :=
  length (List.filter p t).

(** Number of status polls, of fetches of failed-record detail, of
    suspensions and of success logs in a trace. *)
Definition polls : list Event -> nat := count_events is_getInfo.
Definition fetches : list Event -> nat := count_events is_getFailedResults.
Definition suspensions : list Event -> nat := count_events is_timeout.
Definition success_logs : list Event -> nat := count_events is_success_log.

(** ** A scripted collaborator for the monitor

    The world is the number of polls answered so far: the [i]-th poll is
    answered by [script i], and the failed-record detail by [failed]. *)
Definition not_scripted : Js.Error := Js.mkError "Error" "not scripted".

Definition scripted_org (script : nat -> Res AppLink.JobInfo)
    (failed : Res AppLink.FailedResults) : AppLink.Org nat :=
  AppLink.mkOrg "00D000000000001" "monitor@example.com"
    (λ _ n, (n, Err not_scripted))
    (λ _ n, (n, Err not_scripted))
    (λ _ n, (S n, script n))
    (λ _ n, (n, failed)).

(** [monitorBulkJob(org, job)] for a job handle that is defined, against a
    script, from a fresh state. *)
Definition monitor_script (fuel : nat) (script : nat -> Res AppLink.JobInfo)
    (failed : Res AppLink.FailedResults) (job : AppLink.JobRef)
    : State nat * Res MonitorStatus :=
  monitorBulkJob fuel (scripted_org script failed) (Some job) (mkState 0%nat 0%nat []).

Definition is_terminal (info : AppLink.JobInfo) : bool :=
  Js.includes TERMINAL_STATES (AppLink.state info).

(** The poll answers a snapshot in a non-terminal state. *)
Definition keeps_polling (r : Res AppLink.JobInfo) : bool :=
  match r with
  | Ok info => negb (is_terminal info)
  | Err _ => false
  end.

(** What one round on a non-terminal snapshot leaves in the trace. *)
Definition waiting_round (job : AppLink.JobRef) (r : Res AppLink.JobInfo) : list Event :=
  match r with
  | Ok info =>
      [Call_getInfo (Some job);
       Console console_log (Bulk_job_status (AppLink.job_id job) (AppLink.state info)
                  (AppLink.numberRecordsProcessed info)
                  (AppLink.numberRecordsFailed info));
       SetTimeout 5000]
  | Err _ => []
  end.

(** The trace of rounds [from .. from + n) when all of them keep polling. *)
Fixpoint waiting (job : AppLink.JobRef) (script : nat -> Res AppLink.JobInfo)
    (from n : nat) : list Event :=
  match n with
  | O => []
  | S n' => waiting_round job (script from) ++ waiting job script (S from) n'
  end.

(** The poll and the status line of a round that got a snapshot. *)
Definition observed (job : AppLink.JobRef) (info : AppLink.JobInfo) : list Event :=
  [Call_getInfo (Some job);
   Console console_log (Bulk_job_status (AppLink.job_id job) (AppLink.state info)
              (AppLink.numberRecordsProcessed info)
              (AppLink.numberRecordsFailed info))].

(** What the round that observes the terminal snapshot [info] leaves in
    the trace after the status line, the line of the monitor's own [catch]
    included when the fetch of the failed records raises. *)
Definition finalization (job : AppLink.JobRef) (failed : Res AppLink.FailedResults)
    (info : AppLink.JobInfo) : list Event :=
  if String.eqb (AppLink.state info) "JobComplete"
  then
    if 0 <? AppLink.numberRecordsFailed info
    then
      match failed with
      | Ok detail =>
          [Call_getFailedResults (Some job); Console console_error (Failed_records detail)]
      | Err e =>
          [Call_getFailedResults (Some job); Console console_error (Error_monitoring_bulk_job e)]
      end
    else
      [Console console_log (Job_completed_successfully (AppLink.job_id job)
                  (AppLink.numberRecordsProcessed info))]
  else
    [Console console_error (Job_ended_in_state (AppLink.job_id job) (AppLink.state info))].

(** A script that begins with the given answers and goes on with [rest]. *)
Definition script_of (answers : list (Res AppLink.JobInfo)) (rest : Res AppLink.JobInfo)
    (i : nat) : Res AppLink.JobInfo :=
  default rest (answers !! i).

(** What the last round leaves when the poll at [m] stops the monitor. *)
Definition last_round (job : AppLink.JobRef) (script : nat -> Res AppLink.JobInfo)
    (failed : Res AppLink.FailedResults) (m : nat) : list Event :=
  match script m with
  | Ok info => observed job info ++ finalization job failed info
  | Err e => [Call_getInfo (Some job); Console console_error (Error_monitoring_bulk_job e)]
  end.

(** ** Schedules of the fan-out *)

(** Every one of the [n] connections gets both of its calls completed. *)
Definition complete_schedule (n : nat) (schedule : list nat) : bool :=
  forallb (λ i, (2 <=? count_occ Nat.eq_dec schedule i)%nat) (seq 0 n).

(** Calls a closure still has to see completed before it settles. *)
Definition remaining {W} (s : Stage W) : nat :=
  match s with
  | AwaitAuthorization => 2
  | AwaitQuery _ => 1
  | _ => 0
  end.

(** One connection run alone against a collaborator without state of its
    own: what its closure settles to. *)
Definition run_closure (h : Host unit) (name : string) : Stage unit :=
  let st0 := mkState tt 0%nat [] in
  let authorized := snd (AppLink.getAuthorization (sdk h) (Js.trim name) tt) in
  match snd (settle (after_getAuthorization name authorized) st0) with
  | AwaitQuery org =>
      let answered := snd (AppLink.dataApi_query org SOQL_ACCOUNTS tt) in
      snd (settle (after_query name answered) st0)
  | s => s
  end.

(** ** The existence check of the bulk demo, seen from a row

    The row's [Name] is a string that begins with ["Bulk Account "], is at
    most 255 long and satisfies the [LIKE] of the check. *)
Definition matches_guard (record : gmap string Js.Value) : bool :=
  match record !! "Name" with
  | Some (Js.Str nm) =>
      String.prefix "Bulk Account " nm
      && (String.length nm <=? 255)%nat
      && Soql.like nm BULK_NAME_PATTERN
  | _ => false
  end.

(** ** What holds of the fan-out at every moment *)

(** A stage a closure of [name] can be in: never rejected, and once
    fulfilled its outcome carries the trimmed name. *)
Definition sound_stage {W} (name : string) (s : Stage W) : Prop :=
  match s with
  | Rejected _ => False
  | Fulfilled o => connectionName o = Js.trim name
  | _ => True
  end.

(** The promise of [Promise.all] when no promise is rejected. *)
Definition all_of {W} (cs : list (Closure W)) : Promise (list PerConnectionOutcome) :=
  match mapM fulfilled_value cs with
  | Some values => Resolved values
  | None => Pending
  end.

Definition response_of (p : Promise (list PerConnectionOutcome)) : option Response :=
  match p with
  | Resolved values => Some (Render "pages/index" values)
  | _ => None
  end.

Definition invariant {W} (names : list string) (fo : FanOut W) : Prop :=
  captured <$> closures fo = names
  /\ Forall (λ c, sound_stage (captured c) (stage c)) (closures fo)
  /\ all fo = all_of (closures fo)
  /\ response fo = response_of (all fo).

(** What a completion may add to the trace: console lines and queries with
    the fixed text. *)
Definition is_fanout_effect (e : Event) : bool :=
  match e with
  | Call_query _ soql => bool_decide (soql = SOQL_ACCOUNTS)
  | Console _ _ => true
  | _ => false
  end.

(** Against a collaborator without state, a closure is always somewhere on
    the way [run_closure] goes. *)
Definition on_path (h : Host unit) (c : Closure unit) : Prop :=
  match stage c with
  | AwaitAuthorization => True
  | AwaitQuery org =>
      snd (AppLink.getAuthorization (sdk h) (Js.trim (captured c)) tt) = Ok org
  | s => s = run_closure h (captured c)
  end.

(** ** What a connection is answered in a run *)

(** What the collaborator settles one call of a closure with. *)
Inductive Answer (W : Type) : Type :=
| Authorization (settled : Res (AppLink.Org W))
| QueryAnswer (settled : Res AppLink.QueryResult).
Arguments Authorization {W} settled.
Arguments QueryAnswer {W} settled.

(** The answer the pending call of closure [i] gets if it completes now;
    a settled closure has no pending call. *)
Definition pending_answer {W} (h : Host W) (fo : FanOut W) (i : nat) : list (Answer W) :=
  match closures fo !! i with
  | Some (mkClosure name AwaitAuthorization) =>
      [Authorization
         (snd (AppLink.getAuthorization (sdk h) (Js.trim name) (world (run_state fo))))]
  | Some (mkClosure name (AwaitQuery org)) =>
      [QueryAnswer (snd (AppLink.dataApi_query org SOQL_ACCOUNTS (world (run_state fo))))]
  | _ => []
  end.

(** The answers the calls of connection [j] get while the pending calls
    complete in the order [schedule], from [fo] on. *)
Fixpoint received {W} (h : Host W) (fo : FanOut W) (schedule : list nat) (j : nat)
    : list (Answer W) :=
  match schedule with
  | [] => []
  | i :: rest =>
      (if decide (i = j) then pending_answer h fo i else [])
      ++ received h (advance h fo i) rest j
  end.

(** Some step of the connection raised [e]: its session resolution was
    rejected with [e], or its query was, or the projection of a record of
    the query result threw [e]. *)
Definition raised {W} (answers : list (Answer W)) (e : Js.Error) : Prop :=
  match answers with
  | [Authorization (Err e')] => e' = e
  | [Authorization (Ok _); QueryAnswer (Err e')] => e' = e
  | [Authorization (Ok _); QueryAnswer (Ok queryResult)] =>
      mapM project (AppLink.records queryResult) = Err e
  | _ => False
  end.

(** The stage a closure of [name] goes to from [s] on the answer [a]. *)
Definition next_stage {W} (name : string) (s : Stage W) (a : Answer W) : Stage W :=
  match s, a with
  | AwaitAuthorization, Authorization (Ok org) => AwaitQuery org
  | AwaitAuthorization, Authorization (Err e) =>
      Fulfilled (mkOutcome (Js.trim name) (Some (Js.message e)) [])
  | AwaitQuery _, QueryAnswer (Ok queryResult) =>
      match mapM project (AppLink.records queryResult) with
      | Ok accts => Fulfilled (mkOutcome (Js.trim name) None accts)
      | Err e => Fulfilled (mkOutcome (Js.trim name) (Some (Js.message e)) [])
      end
  | AwaitQuery _, QueryAnswer (Err e) =>
      Fulfilled (mkOutcome (Js.trim name) (Some (Js.message e)) [])
  | _, _ => s
  end.

(** ** A scenario to run the handlers on

    One org, ["org-a"], is authorized and holds the account Acme; every
    other name is refused with [invalid_grant]. The collaborator keeps no
    state. *)
Definition acme : AppLink.SfRecord :=
  AppLink.mkRecord
    (Some (<["Name" := Js.Str "Acme"]>
           (<["Id" := Js.Str "001"]>
            (<["attributes" := Js.Str "Account"]> ∅)))).

Definition scenario_org (orgId : string) (found : list AppLink.SfRecord)
    : AppLink.Org unit :=
  AppLink.mkOrg orgId "admin@example.com"
    (λ _ w, (w, Ok (AppLink.mkQueryResult (Z.of_nat (length found)) true found)))
    (λ _ w, (w, Ok [AppLink.mkJobRef "750xx0000000001"]))
    (λ _ w, (w, Ok (AppLink.mkJobInfo "JobComplete" 1000 0)))
    (λ _ w, (w, Ok [])).

Definition invalid_grant : Js.Error := Js.mkError "Error" "invalid_grant".

(** The SDK that knows the one connection [known], answers it with [org]
    and refuses every other name with [refusal]. *)
Definition scenario_sdk (known : string) (org : AppLink.Org unit) (refusal : Js.Error)
    : AppLink.Sdk unit :=
  AppLink.mkSdk (λ key w, (w, if decide (key = known) then Ok org else Err refusal)).

Definition scenario_host (names : option string) (sdk : AppLink.Sdk unit) : Host unit :=
  mkHost sdk (λ i, Js.mkDraw (Z.of_nat i * 1234567890123457) [i; 3; 35; 2]%nat)
         (λ _, 1762102030123) names.

Definition no_request : Request := mkRequest ∅.

(** Two connections configured: [org-a] answers, [org-b] is refused. *)
Definition two_orgs : Host unit :=
  scenario_host (Some "org-a, org-b")
                (scenario_sdk "org-a" (scenario_org "00Dxx0000000001" [acme]) invalid_grant).

(** A bulk submission as the existence check expects it: an insert of a
    thousand accounts, every row named to match. *)
Definition ingest_guarded (e : Event) : bool :=
  match e with
  | Call_ingest _ request =>
      String.eqb (AppLink.object request) "Account"
      && String.eqb (AppLink.operation request) "insert"
      && (length (AppLink.rows (AppLink.dataTable request)) =? 1000)%nat
      && forallb matches_guard (AppLink.rows (AppLink.dataTable request))
  | _ => true
  end.

Definition is_ingest (e : Event) : bool :=
  match e with Call_ingest _ _ => true | _ => false end.

(** The configuration of the README with a space after the comma; the org
    [empty-org] is authorized and holds no account. *)
Definition spaced_names : Host unit :=
  scenario_host (Some "my-org, empty-org")
                (scenario_sdk "empty-org" (scenario_org "00Dxx0000000003" []) invalid_grant).

(** The same with the names as the README writes them. *)
Definition exact_names : Host unit :=
  scenario_host (Some "my-org,empty-org")
                (scenario_sdk "empty-org" (scenario_org "00Dxx0000000003" []) invalid_grant).

(** The authorization of [org-b] is refused with an [Error] whose message
    is empty. *)
Definition blank_refusal : Host unit :=
  scenario_host (Some "org-a, org-b")
                (scenario_sdk "org-a" (scenario_org "00Dxx0000000001" [acme])
                              (Js.mkError "Error" "")).


(** A request that carries a query text of its own. *)
Definition contact_request : Request :=
  mkRequest {["queryText" := "SELECT Id FROM Contact"]}.

(** [org-a] and [org-b] configured with white space of several kinds
    around them: a TAB before and a space after the first, two spaces
    before and a no-break space and a line feed after the second. *)
Definition padded_names : Host unit :=
  scenario_host (Some (String "009" "org-a ,  org-b" +:+ String "160" (String "010" "")))
                (scenario_sdk "org-a" (scenario_org "00Dxx0000000001" [acme]) invalid_grant).

(** ** Collaborators with state

    A collaborator that counts the calls it has answered. [refuses_first]
    refuses the authorization it is asked first and grants every later one;
    [refuses_none] grants them all. Both are configured with the same
    connection twice. *)
Definition counting_org : AppLink.Org nat :=
  AppLink.mkOrg "00Dxx0000000001" "admin@example.com"
    (λ _ w, (S w, Ok (AppLink.mkQueryResult 1 true [acme])))
    (λ _ w, (S w, Ok [AppLink.mkJobRef "750xx0000000001"]))
    (λ _ w, (S w, Ok (AppLink.mkJobInfo "JobComplete" 1000 0)))
    (λ _ w, (S w, Ok [])).

Definition counting_host (sdk : AppLink.Sdk nat) : Host nat :=
  mkHost sdk (λ i, Js.mkDraw (Z.of_nat i * 1234567890123457) [i; 3; 35; 2]%nat)
         (λ _, 1762102030123) (Some "org-a,org-a").

Definition refuses_first : Host nat :=
  counting_host
    (AppLink.mkSdk (λ key w, (S w, if decide (w = 0%nat) then Err invalid_grant
                                    else Ok counting_org))).

Definition refuses_none : Host nat :=
  counting_host (AppLink.mkSdk (λ key w, (S w, Ok counting_org))).

Definition session_locked : Js.Error := Js.mkError "Error" "session locked".

(** A collaborator that locks itself once it has refused a connection: it
    refuses the key [refused] with [invalid_grant], and from then on every
    key with [session_locked]. [org-b] and [org-a] are configured. *)
Definition locks_after_refusing (refused : string) : Host bool :=
  mkHost
    (AppLink.mkSdk (λ (key : string) (locked : bool),
       if locked then (true, Err session_locked)
       else if decide (key = refused) then (true, Err invalid_grant)
       else (false,
             Ok (AppLink.mkOrg "00Dxx0000000001" "admin@example.com"
                   (λ _ w, (w, Ok (AppLink.mkQueryResult 1 true [acme])))
                   (λ _ w, (w, Ok [AppLink.mkJobRef "750xx0000000001"]))
                   (λ _ w, (w, Ok (AppLink.mkJobInfo "JobComplete" 1000 0)))
                   (λ _ w, (w, Ok []))))))
    (λ i, Js.mkDraw (Z.of_nat i * 1234567890123457) [i; 3; 35; 2]%nat)
    (λ _, 1762102030123) (Some "org-b,org-a").


(** ** Further observations *)

(** Occurrences of a character in a string. *)
Fixpoint count_char (c : ascii) (s : string) : nat :=
  match s with
  | EmptyString => 0
  | String d s' => (if decide (d = c) then 1 else 0) + count_char c s'
  end.





Definition is_query (e : Event) : bool :=
  match e with Call_query _ _ => true | _ => false end.

(** The collaborator authorizes the connection of [name]. *)
Definition authorized (h : Host unit) (name : string) : bool :=
  match snd (AppLink.getAuthorization (sdk h) (Js.trim name) tt) with
  | Ok _ => true
  | Err _ => false
  end.

(** The closure has gone past its authorization and was authorized. *)
Definition has_queried (h : Host unit) (c : Closure unit) : bool :=
  match stage c with
  | AwaitAuthorization => false
  | _ => authorized h (captured c)
  end.

(** ** Further scenarios *)

(** [empty-org] is configured and already holds a bulk account. *)
Definition populated_names : Host unit :=
  scenario_host (Some "my-org,empty-org")
                (scenario_sdk "empty-org" (scenario_org "00Dxx0000000003" [acme]) invalid_grant).




(** [org-a] answers with Acme and with a record that has no field bag. *)
Definition malformed_names : Host unit :=
  scenario_host (Some "org-a")
                (scenario_sdk "org-a"
                   (scenario_org "00Dxx0000000001" [acme; AppLink.mkRecord None])
                   invalid_grant).

(** * Properties *)

(** ** Strings *)
Section Strings.

Lemma length_append (s t : string) :
  String.length (s +:+ t) = (String.length s + String.length t)%nat.
Proof. induction s as [|c s IH]; simpl; [reflexivity | now rewrite IH]. Qed.

Lemma prefix_append (p s : string) : String.prefix p (p +:+ s) = true.
Proof.
  induction p as [|c p IH]; simpl.
  - now destruct s.
  - destruct (ascii_dec c c); [exact IH | congruence].
Qed.

Lemma length_substring_le (s : string) (n m : nat) :
  (String.length (String.substring n m s) <= m)%nat.
Proof.
  revert n m. induction s as [|c s IH]; intros [|n] [|m]; simpl; try lia.
  - specialize (IH 0%nat m). lia.
  - apply (IH n 0%nat).
  - apply (IH n (S m)).
Qed.

Lemma length_toUpperCase (s : string) :
  String.length (Js.toUpperCase s) = String.length s.
Proof. induction s as [|c s IH]; simpl; [reflexivity | now rewrite IH]. Qed.

Lemma length_slice_last (s : string) (n : nat) :
  (String.length (Js.slice_last s n) <= n)%nat.
Proof. apply length_substring_le. Qed.

(** [s LIKE '%'] holds of every [s]. *)
Lemma like_percent (s : list ascii) : Soql.like_chars ["%"%char] s = true.
Proof.
  induction s as [|c s IH]; [reflexivity |].
  simpl in *. exact IH.
Qed.

(** A name that begins with the literal part of the pattern matches it. *)
Lemma like_bulk_prefix (rest : string) :
  Soql.like ("Bulk Account" +:+ rest) BULK_NAME_PATTERN = true.
Proof. unfold Soql.like. simpl. apply like_percent. Qed.

End Strings.

(** ** Trimming *)
Section Trimming.

(** White space is TAB, LF, VT, FF, CR, SP and NBSP. *)
Lemma is_whitespace_codes (c : ascii) :
  Js.is_whitespace c = true <-> nat_of_ascii c ∈ [9; 10; 11; 12; 13; 32; 160]%nat.
Proof. unfold Js.is_whitespace. apply bool_decide_eq_true. Qed.

Lemma append_String (c : ascii) (s t : string) :
  String c s +:+ t = String c (s +:+ t).
Proof. reflexivity. Qed.

Lemma chars_append (s t : string) :
  list_ascii_of_string (s +:+ t) = list_ascii_of_string s ++ list_ascii_of_string t.
Proof.
  induction s as [|c s IH]; [reflexivity |].
  rewrite append_String. cbn [list_ascii_of_string]. now rewrite IH.
Qed.

(** [trimStart] drops white space at the front and stops at the first
    other character. *)
Lemma trimStart_blank (l s : string) :
  forallb Js.is_whitespace (list_ascii_of_string l) = true ->
  Js.trimStart (l +:+ s) = Js.trimStart s.
Proof.
  induction l as [|c l IH]; [reflexivity |].
  rewrite append_String. cbn [Js.trimStart list_ascii_of_string forallb].
  intros [Hc Hl]%andb_true_iff. rewrite Hc. now apply IH.
Qed.

Lemma trimStart_head (s : string) (c : ascii) :
  head (list_ascii_of_string s) = Some c -> Js.is_whitespace c = false ->
  Js.trimStart s = s.
Proof.
  destruct s as [|d s]; [discriminate |].
  cbn [Js.trimStart list_ascii_of_string head]. intros [= ->] ->. reflexivity.
Qed.

Lemma trimStart_all_blank (s : string) :
  forallb Js.is_whitespace (list_ascii_of_string s) = true -> Js.trimStart s = "".
Proof.
  induction s as [|c s IH]; [reflexivity |].
  cbn [Js.trimStart list_ascii_of_string forallb].
  intros [Hc Hs]%andb_true_iff. rewrite Hc. now apply IH.
Qed.

Lemma trimEnd_all_blank (s : string) :
  forallb Js.is_whitespace (list_ascii_of_string s) = true -> Js.trimEnd s = "".
Proof.
  induction s as [|c s IH]; [reflexivity |].
  cbn [Js.trimEnd list_ascii_of_string forallb].
  intros [Hc Hs]%andb_true_iff. now rewrite IH, Hc.
Qed.

(** [trimEnd] drops white space at the back and stops at the last other
    character. *)
Lemma trimEnd_last (s r : string) (c : ascii) :
  last (list_ascii_of_string s) = Some c -> Js.is_whitespace c = false ->
  forallb Js.is_whitespace (list_ascii_of_string r) = true ->
  Js.trimEnd (s +:+ r) = s.
Proof.
  intros Hlast Hc Hr. induction s as [|d s IH]; [discriminate |].
  rewrite append_String. cbn [Js.trimEnd].
  destruct s as [|d' s].
  - cbn in Hlast. injection Hlast as ->.
    change ("" +:+ r) with r.
    now rewrite (trimEnd_all_blank r Hr), Hc.
  - rewrite IH by exact Hlast. reflexivity.
Qed.

(** Every string splits into leading white space, a part that neither
    begins nor ends with white space, and trailing white space. *)
Lemma trimStart_splits (s : string) :
  exists l, s = l +:+ Js.trimStart s
            /\ forallb Js.is_whitespace (list_ascii_of_string l) = true
            /\ forall c, head (list_ascii_of_string (Js.trimStart s)) = Some c ->
                         Js.is_whitespace c = false.
Proof.
  induction s as [|d s (l & Hs & Hl & Hhead)].
  - exists "". repeat split. discriminate.
  - cbn [Js.trimStart]. destruct (Js.is_whitespace d) eqn:Hd.
    + exists (String d l). rewrite append_String. cbn [list_ascii_of_string forallb].
      rewrite Hd, Hl. repeat split; [now f_equal | exact Hhead].
    + exists "". repeat split. cbn [list_ascii_of_string head]. now intros c [= <-].
Qed.

Lemma trimEnd_splits (s : string) :
  exists r, s = Js.trimEnd s +:+ r
            /\ forallb Js.is_whitespace (list_ascii_of_string r) = true
            /\ (forall c, last (list_ascii_of_string (Js.trimEnd s)) = Some c ->
                          Js.is_whitespace c = false)
            /\ (forall c, head (list_ascii_of_string (Js.trimEnd s)) = Some c ->
                          head (list_ascii_of_string s) = Some c).
Proof.
  induction s as [|d s (r & Hs & Hr & Hlast & Hhead)].
  - exists "". repeat split; discriminate.
  - cbn [Js.trimEnd]. destruct (Js.trimEnd s) as [|d' t] eqn:Ht.
    + destruct (Js.is_whitespace d) eqn:Hd.
      * exists (String d r). change ("" +:+ String d r) with (String d r).
        cbn [list_ascii_of_string forallb].
        rewrite Hd, Hr. change ("" +:+ r) with r in Hs.
        repeat split; [now f_equal | discriminate | discriminate].
      * exists r. change ("" +:+ r) with r in Hs. rewrite append_String.
        change ("" +:+ r) with r.
        cbn [list_ascii_of_string head last].
        repeat split; [now f_equal | exact Hr | |].
        -- now intros c [= <-].
        -- now intros c [= <-].
    + exists r. repeat split; [rewrite append_String; now f_equal | exact Hr | | now intros c [= <-]].
      intros c Hc. apply Hlast. exact Hc.
Qed.

(** [trim] cuts a string into leading white space, what it returns and
    trailing white space; what it returns neither begins nor ends with
    white space. *)
Lemma trim_splits (name : string) :
  exists leading trailing,
    name = leading +:+ Js.trim name +:+ trailing
    /\ forallb Js.is_whitespace (list_ascii_of_string leading) = true
    /\ forallb Js.is_whitespace (list_ascii_of_string trailing) = true
    /\ forall c, head (list_ascii_of_string (Js.trim name)) = Some c
                 \/ last (list_ascii_of_string (Js.trim name)) = Some c ->
                 Js.is_whitespace c = false.
Proof.
  unfold Js.trim.
  destruct (trimStart_splits name) as (l & Hname & Hl & Hhead).
  destruct (trimEnd_splits (Js.trimStart name)) as (r & Hs & Hr & Hlast & Hsame).
  exists l, r. repeat split; [| exact Hl | exact Hr |].
  - now rewrite <- Hs.
  - intros c [Hc | Hc]; [apply Hhead, Hsame, Hc | apply Hlast, Hc].
Qed.

(** [trim] returns the part between the leading and the trailing white
    space, however the string is cut. *)
Lemma trim_unique (leading kept trailing : string) :
  forallb Js.is_whitespace (list_ascii_of_string leading) = true ->
  forallb Js.is_whitespace (list_ascii_of_string trailing) = true ->
  (forall c, head (list_ascii_of_string kept) = Some c
             \/ last (list_ascii_of_string kept) = Some c ->
             Js.is_whitespace c = false) ->
  Js.trim (leading +:+ kept +:+ trailing) = kept.
Proof.
  intros Hl Hr Hbare. unfold Js.trim. rewrite (trimStart_blank _ _ Hl).
  destruct (head (list_ascii_of_string kept)) as [c|] eqn:Hhead.
  - rewrite (trimStart_head (kept +:+ trailing) c).
    + destruct (last (list_ascii_of_string kept)) as [d|] eqn:Hlast.
      * apply (trimEnd_last kept trailing d Hlast); [apply Hbare; now right | exact Hr].
      * apply last_None in Hlast. now rewrite Hlast in Hhead.
    + rewrite chars_append. destruct (list_ascii_of_string kept); [discriminate | exact Hhead].
    + apply Hbare. now left.
  - destruct kept; [| discriminate]. change ("" +:+ trailing) with trailing.
    now rewrite (trimStart_all_blank _ Hr).
Qed.

(** The white space of the model, by its code units. *)
Lemma blank_codes (s : string) :
  (forall c, c ∈ list_ascii_of_string s ->
             nat_of_ascii c ∈ [9; 10; 11; 12; 13; 32; 160]%nat) ->
  forallb Js.is_whitespace (list_ascii_of_string s) = true.
Proof.
  intros Hs. apply forallb_forall. intros c Hc.
  apply is_whitespace_codes, Hs, list_elem_of_In, Hc.
Qed.

Lemma bare_codes (s : string) :
  (forall c, head (list_ascii_of_string s) = Some c
             \/ last (list_ascii_of_string s) = Some c ->
             nat_of_ascii c ∉ [9; 10; 11; 12; 13; 32; 160]%nat) ->
  forall c, head (list_ascii_of_string s) = Some c
            \/ last (list_ascii_of_string s) = Some c ->
            Js.is_whitespace c = false.
Proof.
  intros Hs c Hc. apply not_true_is_false. intros Hw.
  apply (Hs c Hc), is_whitespace_codes, Hw.
Qed.

End Trimming.

(** ** The random source *)
Section Random.

Lemma floor_scaled_range (d : Js.Draw) (n : Z) :
  0 < n -> 0 <= Js.floor_scaled d n < n.
Proof.
  intros Hn. unfold Js.floor_scaled.
  assert (Hm : 0 <= Js.mantissa d mod 2 ^ 53 < 2 ^ 53)
    by (apply Z.mod_pos_bound; lia).
  split.
  - apply Z.div_pos; nia.
  - apply Z.div_lt_upper_bound; nia.
Qed.

(** An index drawn for a non-empty array is inside it. *)
Lemma pick_is_Some {A} (xs : list A) (d : Js.Draw) :
  xs <> [] -> exists x, Js.pick xs d = Some x /\ x ∈ xs.
Proof.
  intros Hne. unfold Js.pick.
  assert (Hlen : 0 < Z.of_nat (length xs)) by (destruct xs; simpl in *; [congruence | lia]).
  pose proof (floor_scaled_range d _ Hlen) as Hr.
  destruct (lookup_lt_is_Some_2 xs (Z.to_nat (Js.floor_scaled d (Z.of_nat (length xs)))))
    as [x Hx]; [lia |].
  exists x. split; [exact Hx |]. eapply list_elem_of_lookup_2, Hx.
Qed.

Lemma length_interpolate_pick (xs : list string) (d : Js.Draw) (b : nat) :
  Forall (λ s, (String.length s <= b)%nat) xs -> (9 <= b)%nat ->
  (String.length (Js.interpolate (Js.pick xs d)) <= b)%nat.
Proof.
  intros Hall Hb. unfold Js.pick.
  destruct (xs !! _) as [s|] eqn:Hs; simpl; [| lia].
  rewrite Forall_forall in Hall. apply Hall.
  eapply list_elem_of_lookup_2, Hs.
Qed.

End Random.

(** ** Synthetic data *)
Section Generators.
Context {W : Type} (h : Host W).

Lemma businessTypes_short : Forall (λ s, (String.length s <= 10)%nat) businessTypes.
Proof. repeat constructor. Qed.

Lemma businessNames_short : Forall (λ s, (String.length s <= 13)%nat) businessNames.
Proof. repeat constructor. Qed.

Lemma industries_short : Forall (λ s, (String.length s <= 14)%nat) industries.
Proof. repeat constructor. Qed.

(** [generateBusinessName] always returns, after five draws, a name made
    of the prefix and at most 43 further characters. *)
Lemma generateBusinessName_returns (st : State W) :
  exists rest,
    generateBusinessName h st
    = (mkState (world st) (drawn st + 5) (trace st), Ok ("Bulk Account " +:+ rest))
    /\ (String.length rest <= 43)%nat.
Proof.
  unfold generateBusinessName, Math_random, Date_now, lift, mbind, M_bind, mret, M_ret.
  cbn [world drawn trace].
  replace (drawn st + 5)%nat with (S (S (S (S (S (drawn st)))))) by lia.
  set (type := Js.interpolate (Js.pick businessTypes _)).
  set (name := Js.interpolate (Js.pick businessNames _)).
  set (industry := Js.interpolate (Js.pick industries _)).
  set (timestamp := Js.slice_last _ 4).
  set (randomSuffix := Js.toUpperCase _).
  assert (Htype : (String.length type <= 10)%nat)
    by (apply length_interpolate_pick; [apply businessTypes_short | lia]).
  assert (Hname : (String.length name <= 13)%nat)
    by (apply length_interpolate_pick; [apply businessNames_short | lia]).
  assert (Hind : (String.length industry <= 14)%nat)
    by (apply length_interpolate_pick; [apply industries_short | lia]).
  assert (Hts : (String.length timestamp <= 4)%nat) by apply length_slice_last.
  assert (Hsuf : (String.length randomSuffix <= 3)%nat).
  { unfold randomSuffix. rewrite length_toUpperCase. apply (length_substring_le _ 2 3). }
  match goal with
  | |- context [Js.pick ?fs ?d] =>
      destruct (pick_is_Some fs d) as (generatedName & -> & Hin); [discriminate |]
  end.
  assert (Hshape : exists rest, generatedName = "Bulk Account " +:+ rest
                                /\ (String.length rest <= 43)%nat).
  { repeat (apply elem_of_cons in Hin as [-> | Hin]);
      [| | | | now apply elem_of_nil in Hin];
      eexists; (split; [reflexivity |]);
      repeat (rewrite length_append; simpl); lia. }
  destruct Hshape as (rest & -> & Hrest).
  destruct (255 <? _)%nat.
  - eexists. split; [reflexivity |].
    repeat (rewrite length_append; simpl). lia.
  - eexists. split; [reflexivity | exact Hrest].
Qed.

(** [generateAddress] always returns, after six draws. *)
Lemma generateAddress_returns (st : State W) :
  exists address,
    generateAddress h st
    = (mkState (world st) (drawn st + 6) (trace st), Ok address).
Proof.
  unfold generateAddress, Math_random, lift, mbind, M_bind, mret, M_ret.
  cbn [world drawn trace].
  replace (drawn st + 6)%nat with (S (S (S (S (S (S (drawn st))))))) by lia.
  destruct (pick_is_Some states (random_at h (S (S (S (S (drawn st)))))))
    as (s & -> & _); [discriminate |].
  eexists. reflexivity.
Qed.

Lemma matches_guard_insert_other (k : string) (v : Js.Value)
    (record : gmap string Js.Value) :
  k <> "Name" -> matches_guard (<[k := v]> record) = matches_guard record.
Proof. intros Hk. unfold matches_guard. now rewrite lookup_insert_ne. Qed.

Lemma matches_guard_name (rest : string) :
  (String.length rest <= 43)%nat ->
  matches_guard (<["Name" := Js.Str ("Bulk Account " +:+ rest)]> ∅) = true.
Proof.
  intros Hrest. unfold matches_guard. rewrite lookup_insert_eq.
  rewrite prefix_append.
  change ("Bulk Account " +:+ rest) with ("Bulk Account" +:+ (" " +:+ rest)) at 2.
  rewrite like_bulk_prefix, length_append. simpl.
  rewrite andb_true_r. apply Nat.leb_le. lia.
Qed.

(** The loop always completes: [n] more rows, eleven draws each, every
    one of them named as the existence check expects. *)
Lemma add_rows_returns (n : nat) :
  forall (built : list (gmap string Js.Value)) (st : State W),
    forallb matches_guard built = true ->
    exists table,
      add_rows h n built st
      = (mkState (world st) (drawn st + 11 * n) (trace st), Ok table)
      /\ length table = (length built + n)%nat
      /\ forallb matches_guard table = true.
Proof.
  induction n as [|n IH]; intros built st Hbuilt.
  - exists built. cbn. replace (drawn st + 0)%nat with (drawn st) by lia.
    destruct st; simpl. repeat split; [lia | exact Hbuilt].
  - cbn [add_rows]. unfold mbind at 1, M_bind at 1.
    destruct (generateAddress_returns st) as (address & ->).
    unfold mbind at 1, M_bind at 1.
    destruct (generateBusinessName_returns
                (mkState (world st) (drawn st + 6) (trace st))) as (rest & -> & Hrest).
    cbn [world drawn trace].
    match goal with
    | |- context [add_rows h n ?b ?s] => destruct (IH b s) as (table & Heq & Hlen & Hall)
    end.
    { rewrite forallb_app, Hbuilt. simpl. rewrite andb_true_r.
      rewrite !matches_guard_insert_other by discriminate.
      now apply matches_guard_name. }
    exists table. rewrite Heq. cbn [world drawn trace].
    rewrite length_app in Hlen. simpl in Hlen.
    repeat split; [f_equal; f_equal; lia | lia | exact Hall].
Qed.

End Generators.

(** ** The fan-out: what every run satisfies *)
Section FanOut.
Context {W : Type} (h : Host W).



Lemma settle_after_getAuthorization (name : string) (r : Res (AppLink.Org W))
    (st : State W) :
  snd (settle (after_getAuthorization name r) st)
  = match r with
    | Ok org => AwaitQuery org
    | Err e => Fulfilled (mkOutcome (Js.trim name) (Some (Js.message e)) [])
    end.
Proof. now destruct r. Qed.

Lemma settle_after_query (name : string) (r : Res AppLink.QueryResult)
    (st : State W) :
  snd (settle (after_query name r) st)
  = match r with
    | Ok queryResult =>
        match mapM project (AppLink.records queryResult) with
        | Ok accts => Fulfilled (mkOutcome (Js.trim name) None accts)
        | Err e => Fulfilled (mkOutcome (Js.trim name) (Some (Js.message e)) [])
        end
    | Err e => Fulfilled (mkOutcome (Js.trim name) (Some (Js.message e)) [])
    end.
Proof.
  destruct r as [queryResult|e]; [| reflexivity].
  unfold settle, after_query, try_catch, mbind, M_bind, lift, emit. cbn.
  now destruct (mapM project (AppLink.records queryResult)).
Qed.

Lemma resume_spec (i : nat) (st : State W) (cs : list (Closure W)) :
  match resume h i st cs with
  | (_, Some s) =>
      exists c, cs !! i = Some c
                /\ sound_stage (captured c) s
                /\ (remaining s < remaining (stage c))%nat
  | (st', None) =>
      st' = st /\ forall c, cs !! i = Some c -> remaining (stage c) = 0%nat
  end.
Proof.
  unfold resume.
  destruct (cs !! i) as [[name [|org|o|e]]|] eqn:Hc.
  - destruct (AppLink.getAuthorization _ _ _) as [w r].
    pose proof (settle_after_getAuthorization name r (with_world w st)) as Hs.
    destruct (settle _ _) as [st' s]. simpl in Hs. subst s.
    exists (mkClosure name AwaitAuthorization).
    destruct r; simpl; auto with lia.
  - destruct (AppLink.dataApi_query _ _ _) as [w r].
    pose proof (settle_after_query name r (with_world w st)) as Hs.
    destruct (settle _ _) as [st' s]. simpl in Hs. subst s.
    exists (mkClosure name (AwaitQuery org)).
    destruct r as [qr|e]; [destruct (mapM project _) |]; simpl; auto with lia.
  - split; [reflexivity |]. now intros c [= <-].
  - split; [reflexivity |]. now intros c [= <-].
  - split; [reflexivity |]. discriminate.
Qed.

Lemma settle_begin_closure (name : string) (st : State W) :
  settle (begin_closure name) st
  = (mkState (world st) (drawn st) (trace st ++ [Call_getAuthorization (Js.trim name)]),
     AwaitAuthorization).
Proof. reflexivity. Qed.

Lemma map_closures_spec (names : list string) (st : State W) :
  map_closures names st
  = (mkState (world st) (drawn st)
       (trace st ++ ((λ n, Call_getAuthorization (Js.trim n)) <$> names)),
     (λ n, mkClosure n AwaitAuthorization) <$> names).
Proof.
  revert st. induction names as [|name names IH]; intros st.
  - destruct st; simpl. now rewrite app_nil_r.
  - change (map_closures (name :: names) st)
      with (let '(st1, s) := settle (begin_closure name) st in
            let '(st2, cs) := map_closures names st1 in
            (st2, mkClosure name s :: cs)).
    rewrite settle_begin_closure, IH. cbn [world drawn trace].
    now rewrite <- app_assoc.
Qed.

Lemma mapM_awaiting (names : list string) :
  mapM fulfilled_value ((λ n, mkClosure (W:=W) n AwaitAuthorization) <$> names)
  = match names with [] => Some [] | _ => None end.
Proof. now destruct names. Qed.

Lemma begin_index_spec (w0 : W) :
  begin_index h w0
  = let cs := (λ n, mkClosure n AwaitAuthorization) <$> connectionNames h in
    mkFanOut
      (mkState w0 0%nat ((λ n, Call_getAuthorization (Js.trim n)) <$> connectionNames h))
      cs (all_of cs) (response_of (all_of cs)).
Proof.
  unfold begin_index. rewrite map_closures_spec. cbn [world drawn trace app].
  unfold all_of. rewrite mapM_awaiting.
  now destruct (connectionNames h).
Qed.

Lemma invariant_begin (w0 : W) : invariant (connectionNames h) (begin_index h w0).
Proof.
  rewrite begin_index_spec. unfold invariant. cbn [closures all response].
  repeat split.
  - rewrite <- list_fmap_compose. apply list_fmap_id.
  - apply Forall_fmap, Forall_forall. now intros.
Qed.

Lemma unsettled_blocks_all (cs : list (Closure W)) (i : nat) (c : Closure W) :
  cs !! i = Some c -> fulfilled_value c = None -> all_of cs = Pending.
Proof.
  intros Hc Hnone. unfold all_of.
  destruct (mapM fulfilled_value cs) as [values|] eqn:Hm; [| reflexivity].
  apply mapM_Some_1 in Hm.
  destruct (Forall2_lookup_l _ _ _ _ _ Hm Hc) as (o & _ & Ho). congruence.
Qed.

Lemma unsettled_has_no_value (c : Closure W) :
  (0 < remaining (stage c))%nat -> fulfilled_value c = None.
Proof. unfold fulfilled_value. destruct (stage c); simpl; [done | done | lia | lia]. Qed.

Lemma invariant_advance (names : list string) (fo : FanOut W) (i : nat) :
  invariant names fo -> invariant names (advance h fo i).
Proof.
  intros (Hnames & Hsound & Hall & Hresp). unfold advance.
  pose proof (resume_spec i (run_state fo) (closures fo)) as Hr.
  destruct (resume h i (run_state fo) (closures fo)) as [st [s|]];
    [| unfold invariant; auto].
  destruct Hr as (c & Hc & Hs & Hlt). rewrite Hc.
  assert (Hpending : all fo = Pending).
  { rewrite Hall. eapply unsettled_blocks_all; [exact Hc |].
    apply unsettled_has_no_value. lia. }
  set (cs := <[i := mkClosure (captured c) s]> (closures fo)).
  assert (Hi : cs !! i = Some (mkClosure (captured c) s)).
  { apply list_lookup_insert_eq. eapply lookup_lt_Some, Hc. }
  assert (Hall' : Promise_all (all fo) cs s = all_of cs).
  { rewrite Hpending. destruct s as [|org|o|e]; simpl; [| | reflexivity | contradiction];
      symmetry; eapply unsettled_blocks_all; eauto. }
  rewrite Hresp, Hall', Hpending.
  assert (Hsent : respond Pending (all_of cs) st = (st, response_of (all_of cs))).
  { unfold respond, all_of. now destruct (mapM fulfilled_value cs). }
  rewrite Hsent. unfold invariant. cbn [closures all response].
  split; [| split; [| split; reflexivity]].
  - unfold cs. rewrite list_fmap_insert. cbn.
    rewrite list_insert_id; [exact Hnames |].
    now rewrite list_lookup_fmap, Hc.
  - apply Forall_insert; [exact Hsound | exact Hs].
Qed.

(** A completion at [j] leaves every other closure as it was, and takes
    the closure at [j] one call further if it was waiting. *)
Lemma advance_closure (fo : FanOut W) (j i : nat) (c : Closure W) :
  closures fo !! i = Some c ->
  exists c', closures (advance h fo j) !! i = Some c'
             /\ captured c' = captured c
             /\ (i <> j -> c' = c)
             /\ (remaining (stage c') <= remaining (stage c) - (if decide (i = j) then 1 else 0))%nat.
Proof.
  intros Hc. unfold advance.
  pose proof (resume_spec j (run_state fo) (closures fo)) as Hr.
  destruct (resume h j (run_state fo) (closures fo)) as [st [s|]].
  - destruct Hr as (cj & Hcj & _ & Hlt). rewrite Hcj.
    destruct (respond _ _ _) as [st' sent]. cbn [closures].
    destruct (decide (i = j)) as [->|Hne].
    + rewrite list_lookup_insert_eq by (eapply lookup_lt_Some, Hcj).
      assert (cj = c) as -> by congruence.
      eexists. split; [reflexivity |]. cbn. repeat split; [congruence | lia].
    + rewrite list_lookup_insert_ne by congruence.
      exists c. repeat split; auto with lia.
  - exists c. destruct Hr as [_ Hzero]. repeat split; auto.
    destruct (decide (i = j)) as [->|]; [rewrite (Hzero c Hc) |]; lia.
Qed.

Lemma schedule_closure (schedule : list nat) :
  forall (fo : FanOut W) (i : nat) (c : Closure W),
    closures fo !! i = Some c ->
    exists c', closures (foldl (advance h) fo schedule) !! i = Some c'
               /\ captured c' = captured c
               /\ (remaining (stage c')
                   <= remaining (stage c) - count_occ Nat.eq_dec schedule i)%nat.
Proof.
  induction schedule as [|j schedule IH]; intros fo i c Hc.
  - exists c. simpl. repeat split; [exact Hc | lia].
  - destruct (advance_closure fo j i c Hc) as (c1 & Hc1 & Hcap1 & _ & Hrem1).
    destruct (IH (advance h fo j) i c1 Hc1) as (c2 & Hc2 & Hcap2 & Hrem2).
    exists c2. cbn [foldl]. repeat split; [exact Hc2 | congruence |].
    cbn [count_occ].
    destruct (Nat.eq_dec j i) as [->|Hne].
    + rewrite decide_True in Hrem1 by reflexivity. lia.
    + lia.
Qed.

Lemma invariant_schedule (names : list string) (schedule : list nat) :
  forall fo : FanOut W, invariant names fo ->
                        invariant names (foldl (advance h) fo schedule).
Proof.
  induction schedule as [|j schedule IH]; intros fo Hinv; [exact Hinv |].
  apply IH, invariant_advance, Hinv.
Qed.

Lemma invariant_get_index (req : Request) (w0 : W) (schedule : list nat) :
  invariant (connectionNames h) (get_index h req w0 schedule).
Proof. apply invariant_schedule, invariant_begin. Qed.

(** Once [Promise.all] is resolved its values are the closures' values,
    position by position. *)
Lemma resolved_positional (names : list string) (fo : FanOut W)
    (outs : list PerConnectionOutcome) :
  invariant names fo -> all fo = Resolved outs ->
  length outs = length names
  /\ forall i name, names !! i = Some name ->
       exists o, outs !! i = Some o
                 /\ connectionName o = Js.trim name
                 /\ stage <$> closures fo !! i = Some (Fulfilled o).
Proof.
  intros (Hnames & Hsound & Hall & _) Hres.
  rewrite Hall in Hres. unfold all_of in Hres.
  destruct (mapM fulfilled_value (closures fo)) as [values|] eqn:Hm; [| discriminate].
  injection Hres as ->. apply mapM_Some_1 in Hm.
  split.
  - rewrite <- Hnames, length_fmap. symmetry. eapply Forall2_length, Hm.
  - intros i name Hi. rewrite <- Hnames, list_lookup_fmap in Hi.
    destruct (closures fo !! i) as [c|] eqn:Hc; [| discriminate].
    injection Hi as <-.
    destruct (Forall2_lookup_l _ _ _ _ _ Hm Hc) as (o & Ho & Hval).
    exists o. unfold fulfilled_value in Hval.
    rewrite Forall_forall in Hsound.
    specialize (Hsound c (list_elem_of_lookup_2 _ _ _ Hc)).
    destruct (stage c) as [|org|o'|e] eqn:Hst; try discriminate.
    injection Hval as ->. cbn in Hsound.
    repeat split; [exact Ho | exact Hsound | cbn; now rewrite Hst].
Qed.

(** A schedule that completes both calls of every connection resolves
    [Promise.all], and the page is rendered with its values. *)
Lemma complete_resolves (req : Request) (w0 : W) (schedule : list nat) :
  complete_schedule (length (connectionNames h)) schedule = true ->
  exists outs, all (get_index h req w0 schedule) = Resolved outs
               /\ response (get_index h req w0 schedule)
                  = Some (Render "pages/index" outs).
Proof.
  intros Hcomplete.
  pose proof (invariant_get_index req w0 schedule) as Hinv.
  destruct Hinv as (Hnames & Hsound & Hall & Hresp).
  assert (Hsettled : Forall (is_Some ∘ fulfilled_value)
                            (closures (get_index h req w0 schedule))).
  { apply Forall_lookup. intros i c Hc.
    assert (Hi : (i < length (connectionNames h))%nat).
    { rewrite <- Hnames, length_fmap. eapply lookup_lt_Some, Hc. }
    destruct (lookup_lt_is_Some_2 (closures (begin_index h w0)) i) as [c0 Hc0].
    { rewrite begin_index_spec. cbn [closures]. now rewrite length_fmap. }
    destruct (schedule_closure schedule _ i c0 Hc0) as (c' & Hc' & _ & Hrem).
    unfold get_index in Hc. rewrite Hc in Hc'. injection Hc' as <-.
    unfold complete_schedule in Hcomplete. rewrite forallb_forall in Hcomplete.
    specialize (Hcomplete i). rewrite in_seq in Hcomplete.
    apply Nat.leb_le in Hcomplete; [| lia].
    assert (Hc0' : (remaining (stage c0) <= 2)%nat) by (destruct (stage c0); simpl; lia).
    rewrite Forall_forall in Hsound.
    specialize (Hsound c (list_elem_of_lookup_2 _ _ _ Hc)).
    unfold fulfilled_value. cbn.
    destruct (stage c); cbn in *; [lia | lia | eauto | contradiction]. }
  apply mapM_is_Some in Hsettled. destruct Hsettled as [outs Houts].
  exists outs. rewrite Hresp, Hall. unfold all_of. now rewrite Houts.
Qed.

Lemma after_getAuthorization_trace (name : string) (r : Res (AppLink.Org W))
    (st : State W) :
  exists extra,
    trace (fst (settle (after_getAuthorization name r) st)) = trace st ++ extra
    /\ forallb is_fanout_effect extra = true.
Proof.
  unfold settle, after_getAuthorization, try_catch, on_error, mbind, M_bind,
    mret, M_ret, lift, emit.
  destruct r as [org|e]; cbn; rewrite <- ?app_assoc; eexists; (split; [reflexivity |]);
    cbn; rewrite ?bool_decide_eq_true_2 by reflexivity; reflexivity.
Qed.

Lemma after_query_trace (name : string) (r : Res AppLink.QueryResult)
    (st : State W) :
  exists extra,
    trace (fst (settle (after_query name r) st)) = trace st ++ extra
    /\ forallb is_fanout_effect extra = true.
Proof.
  unfold settle, after_query, try_catch, on_error, mbind, M_bind,
    mret, M_ret, lift, emit.
  destruct r as [queryResult|e]; cbn.
  - destruct (mapM project (AppLink.records queryResult)); cbn;
      rewrite <- ?app_assoc; eexists; (split; [reflexivity |]); reflexivity.
  - eexists; (split; [reflexivity |]); reflexivity.
Qed.

Lemma resume_trace (i : nat) (st : State W) (cs : list (Closure W)) :
  exists extra,
    trace (fst (resume h i st cs)) = trace st ++ extra
    /\ forallb is_fanout_effect extra = true.
Proof.
  unfold resume.
  destruct (cs !! i) as [[name [|org|o|e]]|];
    try (exists []; now rewrite app_nil_r).
  - destruct (AppLink.getAuthorization _ _ _) as [w r].
    destruct (after_getAuthorization_trace name r (with_world w st)) as (extra & He & Ha).
    destruct (settle _ _) as [st' s]. exists extra. now split.
  - destruct (AppLink.dataApi_query _ _ _) as [w r].
    destruct (after_query_trace name r (with_world w st)) as (extra & He & Ha).
    destruct (settle _ _) as [st' s]. exists extra. now split.
Qed.

Lemma respond_trace (p q : Promise (list PerConnectionOutcome)) (st : State W) :
  exists extra,
    trace (fst (respond p q st)) = trace st ++ extra
    /\ forallb is_fanout_effect extra = true.
Proof.
  unfold respond, after_all, try_catch, mbind, M_bind, mret, M_ret, lift, emit.
  destruct p as [|v|e], q as [|v'|e']; cbn;
    try (exists []; now rewrite app_nil_r); eexists; split; reflexivity.
Qed.

Lemma advance_trace (fo : FanOut W) (j : nat) :
  exists extra,
    trace (run_state (advance h fo j)) = trace (run_state fo) ++ extra
    /\ forallb is_fanout_effect extra = true.
Proof.
  unfold advance.
  destruct (resume_trace j (run_state fo) (closures fo)) as (e1 & H1 & Ha1).
  destruct (resume h j (run_state fo) (closures fo)) as [st [s|]];
    [| exists []; now rewrite app_nil_r].
  match goal with
  | |- context [respond ?p ?q st] =>
      destruct (respond_trace p q st) as (e2 & H2 & Ha2);
      destruct (respond p q st) as [st' sent]
  end.
  cbn in *. exists (e1 ++ e2). rewrite H2, H1, <- app_assoc.
  split; [reflexivity |]. now rewrite forallb_app, Ha1, Ha2.
Qed.

Lemma schedule_trace (schedule : list nat) :
  forall fo : FanOut W,
    exists extra,
      trace (run_state (foldl (advance h) fo schedule)) = trace (run_state fo) ++ extra
      /\ forallb is_fanout_effect extra = true.
Proof.
  induction schedule as [|j schedule IH]; intros fo.
  - exists []. now rewrite app_nil_r.
  - destruct (advance_trace fo j) as (e1 & H1 & Ha1).
    destruct (IH (advance h fo j)) as (e2 & H2 & Ha2).
    exists (e1 ++ e2). cbn [foldl]. rewrite H2, H1, <- app_assoc.
    split; [reflexivity |]. now rewrite forallb_app, Ha1, Ha2.
Qed.

(** The whole trace of the handler: the authorizations asked for, one
    per name and in the order of the names, then what completions add. *)
Lemma get_index_trace (req : Request) (w0 : W) (schedule : list nat) :
  exists extra,
    trace (run_state (get_index h req w0 schedule))
    = ((λ n, Call_getAuthorization (Js.trim n)) <$> connectionNames h) ++ extra
    /\ forallb is_fanout_effect extra = true.
Proof.
  unfold get_index.
  destruct (schedule_trace schedule (begin_index h w0)) as (extra & Heq & Hall).
  exists extra. rewrite Heq, begin_index_spec. now cbn.
Qed.
End FanOut.

Section Stateless.
Context (h : Host unit).

Lemma on_path_advance (fo : FanOut unit) (j : nat) :
  Forall (on_path h) (closures fo) ->
  Forall (on_path h) (closures (advance h fo j)).
Proof.
  intros Hall. unfold advance, resume.
  destruct (closures fo !! j) as [[name s0]|] eqn:Hc; [| exact Hall].
  assert (Hj : on_path h (mkClosure name s0)).
  { rewrite Forall_forall in Hall. eapply Hall, list_elem_of_lookup_2, Hc. }
  destruct s0 as [|org|o|e]; try exact Hall.
  - destruct (world (run_state fo)).
    destruct (AppLink.getAuthorization (sdk h) (Js.trim name) ()) as [w r] eqn:Hauth.
    pose proof (settle_after_getAuthorization name r (with_world w (run_state fo))) as Hs.
    destruct (settle _ _) as [st' s]. cbn [snd] in Hs. subst s.
    destruct (respond _ _ _) as [st'' sent]. cbn [closures captured].
    apply Forall_insert; [exact Hall |].
    unfold on_path, run_closure. cbn [stage captured]. rewrite Hauth. cbn [snd].
    destruct r as [org|e]; [reflexivity |].
    now rewrite settle_after_getAuthorization.
  - destruct (world (run_state fo)).
    destruct (AppLink.dataApi_query org SOQL_ACCOUNTS ()) as [w r] eqn:Hq.
    pose proof (settle_after_query name r (with_world w (run_state fo))) as Hs.
    destruct (settle _ _) as [st' s]. cbn [snd] in Hs.
    destruct (respond _ _ _) as [st'' sent]. cbn [closures captured].
    apply Forall_insert; [exact Hall |].
    unfold on_path in Hj. cbn [stage captured] in Hj.
    assert (Hrun : run_closure h name = s).
    { unfold run_closure. rewrite Hj, settle_after_getAuthorization, Hq. cbn [snd].
      rewrite settle_after_query. now rewrite Hs. }
    unfold on_path. cbn [stage captured]. rewrite Hrun.
    subst s. destruct r as [qr|e]; [destruct (mapM project _) |]; reflexivity.
Qed.

Lemma on_path_get_index (req : Request) (schedule : list nat) :
  Forall (on_path h) (closures (get_index h req tt schedule)).
Proof.
  unfold get_index.
  assert (H0 : Forall (on_path h) (closures (begin_index h tt))).
  { rewrite begin_index_spec. cbn [closures]. apply Forall_fmap, Forall_forall.
    now intros. }
  revert H0. generalize (begin_index h tt).
  induction schedule as [|j schedule IH]; intros fo Hfo; [exact Hfo |].
  apply IH, on_path_advance, Hfo.
Qed.

(** Against a collaborator without state the values of [Promise.all] do
    not depend on the schedule: position [i] holds what the closure of
    the [i]-th name settles to when run alone. *)
Lemma stateless_outcomes (req : Request) (schedule : list nat) :
  complete_schedule (length (connectionNames h)) schedule = true ->
  exists outs,
    response (get_index h req tt schedule) = Some (Render "pages/index" outs)
    /\ length outs = length (connectionNames h)
    /\ forall i name, connectionNames h !! i = Some name ->
         exists o, outs !! i = Some o /\ run_closure h name = Fulfilled o.
Proof.
  intros Hcomplete.
  destruct (complete_resolves h req tt schedule Hcomplete) as (outs & Hall & Hresp).
  exists outs. split; [exact Hresp |].
  pose proof (invariant_get_index h req tt schedule) as Hinv.
  destruct (resolved_positional _ _ _ Hinv Hall) as [Hlen Hpos].
  split; [exact Hlen |].
  intros i name Hi. destruct (Hpos i name Hi) as (o & Ho & _ & Hstage).
  exists o. split; [exact Ho |].
  destruct (closures (get_index h req tt schedule) !! i) as [c|] eqn:Hc;
    [| discriminate].
  cbn in Hstage. injection Hstage as Hstage.
  pose proof (on_path_get_index req schedule) as Hpath.
  rewrite Forall_forall in Hpath.
  specialize (Hpath c (list_elem_of_lookup_2 _ _ _ Hc)).
  unfold on_path in Hpath. rewrite Hstage in Hpath.
  destruct Hinv as (Hnames & _).
  assert (captured c = name) as <-.
  { apply (f_equal (λ l, l !! i)) in Hnames.
    rewrite list_lookup_fmap, Hc, Hi in Hnames. now injection Hnames. }
  now symmetry.
Qed.

End Stateless.

(** ** The fan-out: a closure follows its own answers *)
Section Received.
Context {W : Type} (h : Host W).

(** A completion at [i] takes the closure at [j] on by the answer it gets,
    which is none unless [i] is [j]. *)
Lemma advance_received (fo : FanOut W) (i j : nat) (c : Closure W) :
  closures fo !! j = Some c ->
  exists c', closures (advance h fo i) !! j = Some c'
             /\ captured c' = captured c
             /\ stage c' = foldl (next_stage (captured c)) (stage c)
                             (if decide (i = j) then pending_answer h fo i else []).
Proof.
  intros Hc. destruct (decide (i = j)) as [->|Hne].
  - unfold advance, resume, pending_answer. rewrite Hc.
    destruct c as [name [|org|o|e]].
    + destruct (AppLink.getAuthorization _ _ _) as [w r].
      pose proof (settle_after_getAuthorization name r (with_world w (run_state fo))) as Hs.
      destruct (settle _ _) as [st' s]. cbn [snd] in Hs. subst s.
      destruct (respond _ _ _) as [st'' sent]. cbn [closures captured].
      rewrite list_lookup_insert_eq by (eapply lookup_lt_Some, Hc).
      eexists. split; [reflexivity |]. split; [reflexivity |].
      cbn. now destruct r.
    + destruct (AppLink.dataApi_query _ _ _) as [w r].
      pose proof (settle_after_query name r (with_world w (run_state fo))) as Hs.
      destruct (settle _ _) as [st' s]. cbn [snd] in Hs. subst s.
      destruct (respond _ _ _) as [st'' sent]. cbn [closures captured].
      rewrite list_lookup_insert_eq by (eapply lookup_lt_Some, Hc).
      eexists. split; [reflexivity |]. split; [reflexivity |].
      cbn. now destruct r.
    + exists (mkClosure name (Fulfilled o)). now repeat split.
    + exists (mkClosure name (Rejected e)). now repeat split.
  - destruct (advance_closure h fo i j c Hc) as (c' & Hc' & _ & Hsame & _).
    assert (j <> i) as Hji by congruence.
    rewrite (Hsame Hji) in Hc'. exists c. now repeat split.
Qed.

(** So through a whole schedule. *)
Lemma schedule_received (schedule : list nat) :
  forall (fo : FanOut W) (j : nat) (c : Closure W),
    closures fo !! j = Some c ->
    exists c', closures (foldl (advance h) fo schedule) !! j = Some c'
               /\ captured c' = captured c
               /\ stage c' = foldl (next_stage (captured c)) (stage c)
                               (received h fo schedule j).
Proof.
  induction schedule as [|i schedule IH]; intros fo j c Hc.
  - exists c. now repeat split.
  - destruct (advance_received fo i j c Hc) as (c1 & Hc1 & Hcap1 & Hst1).
    destruct (IH (advance h fo i) j c1 Hc1) as (c2 & Hc2 & Hcap2 & Hst2).
    exists c2. cbn [foldl received]. repeat split; [exact Hc2 | congruence |].
    rewrite foldl_app, <- Hst1, <- Hcap1. exact Hst2.
Qed.

(** What the closure of a connection settles to is decided by its name
    and the answers its own calls get. *)
Lemma get_index_received (req : Request) (w0 : W) (schedule : list nat)
    (j : nat) (name : string) :
  connectionNames h !! j = Some name ->
  stage <$> closures (get_index h req w0 schedule) !! j
  = Some (foldl (next_stage name) AwaitAuthorization
            (received h (begin_index h w0) schedule j)).
Proof.
  intros Hj.
  assert (Hc0 : closures (begin_index h w0) !! j = Some (mkClosure name AwaitAuthorization)).
  { rewrite begin_index_spec. cbn [closures]. now rewrite list_lookup_fmap, Hj. }
  destruct (schedule_received schedule _ j _ Hc0) as (c' & Hc' & _ & Hst).
  unfold get_index. rewrite Hc'. cbn. now rewrite Hst.
Qed.

(** A closure one of whose steps raised settles to the failure shape. *)
Lemma raised_outcome (name : string) (answers : list (Answer W)) (e : Js.Error) :
  raised answers e ->
  foldl (next_stage name) AwaitAuthorization answers
  = Fulfilled (mkOutcome (Js.trim name) (Some (Js.message e)) []).
Proof.
  unfold raised. intros Hraised.
  destruct answers as [|[[org|e1]|r1] [|[r2|[qr|e2]] [|a3 rest]]]; try contradiction; cbn.
  - now rewrite Hraised.
  - now subst.
  - now subst.
Qed.

End Received.

(** ** The bulk demo *)
Section BulkDemo.
Context {W : Type} (h : Host W).

(** Membership of an event in a trace that is written out. *)
Ltac in_trace H :=
  repeat first
    [ apply elem_of_app in H as [H | H]
    | apply elem_of_cons in H as [H | H]
    | apply elem_of_nil in H; contradiction
    | discriminate H ].

(** Runs the handler from a state with an empty trace along each of its
    paths and leaves one goal per path to [leaf]. *)
Ltac bulk_demo_paths w leaf :=
  unfold get_bulk_demo, try_catch;
  destruct (Js.includes (connectionNames h) "empty-org") eqn:Hguard; cbn [negb];
  [ unfold mbind at 1, M_bind at 1, await at 1; cbn [world drawn trace];
    destruct (AppLink.getAuthorization (sdk h) "empty-org" w) as [w1 [org|e]];
    [ unfold mbind at 1, M_bind at 1, emit at 1; cbn [world drawn trace];
      unfold mbind at 1, M_bind at 1, await at 1; cbn [world drawn trace];
      match goal with
      | |- context [AppLink.dataApi_query ?o ?q ?w'] =>
          destruct (AppLink.dataApi_query o q w') as [w2 [queryResult|e]]
      end;
      [ unfold mbind at 1, M_bind at 1, emit at 1; cbn [world drawn trace];
        match goal with
        | |- context [(length ?rs =? 0)%nat] => destruct (length rs =? 0)%nat
        end;
        [ unfold mbind at 1, M_bind at 1, emit at 1; cbn [world drawn trace];
          unfold mbind at 1, M_bind at 1;
          match goal with
          | |- context [add_rows h 1000 [] ?s] =>
              destruct (add_rows_returns h 1000 [] s eq_refl)
                as (table & -> & Hlen & Hguarded)
          end;
          cbn [world drawn trace];
          unfold mbind at 1, M_bind at 1, await at 1; cbn [world drawn trace];
          match goal with
          | |- context [AppLink.bulkApi_ingest ?o ?r ?w'] =>
              destruct (AppLink.bulkApi_ingest o r w') as [w3 [ingestResults|e]]
          end;
          [ unfold mbind at 1, M_bind at 1, emit at 1; cbn [world drawn trace];
            match goal with
            | |- context [?l !! 0%nat] => destruct (l !! 0%nat) as [job|]
            end |]
        |]
      |]
    |]
  |];
  unfold mbind, M_bind, mret, M_ret, lift, emit; cbn; leaf.

(** Every submission the handler makes is the one the existence check
    expects. *)
Lemma bulk_demo_ingests_guarded (req : Request) (w : W) (d : nat) :
  forallb ingest_guarded (trace (fst (get_bulk_demo h req (mkState w d [])))) = true.
Proof.
  bulk_demo_paths w ltac:(try reflexivity).
  all: cbn in Hlen; rewrite Hguarded, Hlen; reflexivity.
Qed.

(** The existence check asks for the names that begin with the prefix. *)
Lemma bulk_demo_query_text (req : Request) (w : W) (d : nat) (orgId soql : string) :
  Call_query orgId soql ∈ trace (fst (get_bulk_demo h req (mkState w d []))) ->
  soql = "SELECT Id FROM Account WHERE Name LIKE 'Bulk Account%'".
Proof.
  bulk_demo_paths w ltac:(intros H; in_trace H; try (now injection H as -> ->)).
Qed.

(** With [empty-org] among the names as configured, the handler goes on
    to resolve it. *)
Lemma bulk_demo_proceeds (req : Request) (w : W) (d : nat) :
  "empty-org" ∈ connectionNames h ->
  exists rest,
    trace (fst (get_bulk_demo h req (mkState w d [])))
    = Call_getAuthorization "empty-org" :: rest.
Proof.
  intros Hin.
  assert (Hinc : Js.includes (connectionNames h) "empty-org" = true)
    by now apply bool_decide_eq_true_2.
  bulk_demo_paths w ltac:(try (eexists; reflexivity)).
  congruence.
Qed.

(** Without it, the handler answers 400 and does nothing else. *)
Lemma bulk_demo_rejects (req : Request) (st : State W) :
  "empty-org" ∉ connectionNames h ->
  get_bulk_demo h req st = (st, Ok (Send 400 "empty-org connection not found")).
Proof.
  intros Hnot. unfold get_bulk_demo, try_catch, Js.includes.
  now rewrite bool_decide_eq_false_2.
Qed.
End BulkDemo.

(** ** The monitor against a script *)
Section Monitor.
Context (script : nat -> Res AppLink.JobInfo) (failed : Res AppLink.FailedResults)
        (job : AppLink.JobRef).

Let round := monitor_round (scripted_org script failed) (Some job).

Lemma round_waiting (k d : nat) (t : list Event) :
  keeps_polling (script k) = true ->
  round (mkState k d t) = (mkState (S k) d (t ++ waiting_round job (script k)), Ok false).
Proof.
  unfold keeps_polling, is_terminal. intros Hkeep.
  destruct (script k) as [info|e] eqn:Hk; [| discriminate].
  apply negb_true_iff in Hkeep.
  unfold round, monitor_round, await, mbind, M_bind, mret, M_ret, lift, emit.
  cbn. rewrite Hk. cbn. rewrite Hkeep. cbn.
  now rewrite <- !app_assoc.
Qed.

Lemma round_raises (k d : nat) (t : list Event) (e : Js.Error) :
  script k = Err e ->
  round (mkState k d t) = (mkState (S k) d (t ++ [Call_getInfo (Some job)]), Err e).
Proof.
  intros Hk.
  unfold round, monitor_round, await, mbind, M_bind, mret, M_ret, lift, emit.
  cbn. now rewrite Hk.
Qed.

Let on_exception : Js.Error -> M nat MonitorStatus :=
  λ err, emit (Console console_error (Error_monitoring_bulk_job err));; mret Returned.

(** The loop on a terminal snapshot, inside the monitor's [try]. *)
Lemma loop_terminal (fuel k d : nat) (t : list Event) (info : AppLink.JobInfo) :
  script k = Ok info -> is_terminal info = true ->
  try_catch (while_not_complete (S fuel) round) on_exception (mkState k d t)
  = (mkState (S k) d (t ++ observed job info ++ finalization job failed info),
     Ok Returned).
Proof.
  unfold is_terminal. intros Hk Hterm.
  unfold on_exception, try_catch, round. cbn [while_not_complete].
  unfold monitor_round, await, mbind, M_bind, mret, M_ret, lift, emit, finalization.
  cbn. rewrite Hk. cbn. rewrite Hterm. cbn.
  destruct (String.eqb (AppLink.state info) "JobComplete"); cbn.
  - destruct (0 <? AppLink.numberRecordsFailed info); cbn.
    + destruct failed as [detail|e]; cbn; now rewrite <- !app_assoc.
    + now rewrite <- !app_assoc.
  - now rewrite <- !app_assoc.
Qed.

Lemma loop_raises (fuel k d : nat) (t : list Event) (e : Js.Error) :
  script k = Err e ->
  try_catch (while_not_complete (S fuel) round) on_exception (mkState k d t)
  = (mkState (S k) d
       (t ++ [Call_getInfo (Some job); Console console_error (Error_monitoring_bulk_job e)]),
     Ok Returned).
Proof.
  intros Hk. unfold on_exception, try_catch. cbn [while_not_complete].
  unfold mbind at 1, M_bind at 1. rewrite (round_raises _ _ _ _ Hk).
  unfold mbind, M_bind, mret, M_ret, emit. cbn. now rewrite <- app_assoc.
Qed.

(** [n] rounds on snapshots that keep the monitor polling. *)
Lemma loop_waiting (n : nat) :
  forall (fuel k d : nat) (t : list Event),
    (forall i, (i < n)%nat -> keeps_polling (script (k + i)%nat) = true) ->
    while_not_complete (n + fuel) round (mkState k d t)
    = while_not_complete fuel round
        (mkState (k + n)%nat d (t ++ waiting job script k n)).
Proof.
  induction n as [|n IH]; intros fuel k d t Hkeep.
  - cbn. now rewrite Nat.add_0_r, app_nil_r.
  - cbn [Nat.add while_not_complete waiting].
    unfold mbind at 1, M_bind at 1.
    rewrite round_waiting by (rewrite <- (Nat.add_0_r k); apply Hkeep; lia).
    rewrite IH.
    + now rewrite <- app_assoc, Nat.add_succ_r.
    + intros i Hi. rewrite Nat.add_succ_l, <- Nat.add_succ_r. apply Hkeep. lia.
Qed.

Lemma monitor_terminal (n fuel : nat) (info : AppLink.JobInfo) :
  (forall i, (i < n)%nat -> keeps_polling (script i) = true) ->
  script n = Ok info -> is_terminal info = true -> (n < fuel)%nat ->
  monitor_script fuel script failed job
  = (mkState (S n) 0%nat
       (waiting job script 0 n ++ observed job info ++ finalization job failed info),
     Ok Returned).
Proof.
  intros Hkeep Hn Hterm Hfuel.
  unfold monitor_script, monitorBulkJob.
  replace fuel with (n + S (fuel - S n))%nat by lia.
  unfold try_catch. rewrite loop_waiting by exact Hkeep.
  exact (loop_terminal (fuel - S n) (0 + n)%nat 0%nat _ info Hn Hterm).
Qed.

Lemma monitor_poll_raises (n fuel : nat) (e : Js.Error) :
  (forall i, (i < n)%nat -> keeps_polling (script i) = true) ->
  script n = Err e -> (n < fuel)%nat ->
  monitor_script fuel script failed job
  = (mkState (S n) 0%nat
       (waiting job script 0 n
          ++ [Call_getInfo (Some job); Console console_error (Error_monitoring_bulk_job e)]),
     Ok Returned).
Proof.
  intros Hkeep Hn Hfuel.
  unfold monitor_script, monitorBulkJob.
  replace fuel with (n + S (fuel - S n))%nat by lia.
  unfold try_catch. rewrite loop_waiting by exact Hkeep.
  exact (loop_raises (fuel - S n) (0 + n)%nat 0%nat _ e Hn).
Qed.

Lemma monitor_still_polling (fuel : nat) :
  (forall i, (i < fuel)%nat -> keeps_polling (script i) = true) ->
  monitor_script fuel script failed job
  = (mkState fuel 0%nat (waiting job script 0 fuel), Ok StillPolling).
Proof.
  intros Hkeep.
  unfold monitor_script, monitorBulkJob, try_catch.
  rewrite <- (Nat.add_0_r fuel) at 1. rewrite loop_waiting by exact Hkeep.
  reflexivity.
Qed.

(** ** Counting in the trace *)

Lemma count_events_app (p : Event -> bool) (t u : list Event) :
  count_events p (t ++ u) = (count_events p t + count_events p u)%nat.
Proof. unfold count_events. now rewrite List.filter_app, length_app. Qed.

Lemma count_waiting (p : Event -> bool) (per_round : nat) (n : nat) :
  (forall info, count_events p (waiting_round job (Ok info)) = per_round) ->
  forall k, (forall i, (i < n)%nat -> keeps_polling (script (k + i)%nat) = true) ->
            count_events p (waiting job script k n) = (n * per_round)%nat.
Proof.
  intros Hround. induction n as [|n IH]; intros k Hkeep; [reflexivity |].
  cbn [waiting]. rewrite count_events_app, IH.
  - specialize (Hkeep 0%nat ltac:(lia)). rewrite Nat.add_0_r in Hkeep.
    destruct (script k) as [info|e]; [| discriminate].
    rewrite Hround. lia.
  - intros i Hi. rewrite Nat.add_succ_l, <- Nat.add_succ_r. apply Hkeep. lia.
Qed.

(** The first poll that does not keep the monitor polling, if there is
    one among the first [n]. *)
Lemma first_stop (n : nat) :
  keeps_polling (script n) = false ->
  exists m, (m <= n)%nat /\ keeps_polling (script m) = false
            /\ forall i, (i < m)%nat -> keeps_polling (script i) = true.
Proof.
  induction n as [n IH] using lt_wf_ind. intros Hstop.
  destruct (existsb (λ i, negb (keeps_polling (script i))) (seq 0 n)) eqn:Hearlier.
  - apply existsb_exists in Hearlier as (m & Hm & Hmstop).
    apply in_seq in Hm. apply negb_true_iff in Hmstop.
    destruct (IH m ltac:(lia) Hmstop) as (m' & Hle & Hstop' & Hbefore).
    exists m'. repeat split; [lia | exact Hstop' | exact Hbefore].
  - exists n. repeat split; [lia | exact Hstop |].
    intros i Hi. destruct (keeps_polling (script i)) eqn:Hi'; [reflexivity |].
    assert (Hex : existsb (λ i, negb (keeps_polling (script i))) (seq 0 n) = true).
    { apply existsb_exists. exists i. split; [apply in_seq; lia | now rewrite Hi']. }
    congruence.
Qed.
End Monitor.

(** * Main results *)

Section FanOutClaims.
Context {W : Type} (h : Host W).

(** The stage a closure waiting for its authorization moves to: the
    session is resolved under the trimmed name. *)
Lemma resume_authorization (i : nat) (st : State W) (cs : list (Closure W))
    (name : string) :
  cs !! i = Some (mkClosure name AwaitAuthorization) ->
  snd (resume h i st cs)
  = Some (match snd (AppLink.getAuthorization (sdk h) (Js.trim name) (world st)) with
          | Ok org => AwaitQuery org
          | Err e => Fulfilled (mkOutcome (Js.trim name) (Some (Js.message e)) [])
          end).
Proof.
  intros Hc. unfold resume. rewrite Hc.
  destruct (AppLink.getAuthorization _ _ _) as [w r].
  pose proof (settle_after_getAuthorization name r (with_world w st)) as Hs.
  destruct (settle _ _) as [st' s]. cbn [snd] in *. now rewrite Hs.
Qed.

(** The stage a closure waiting for its query moves to: the text handed
    to the engine is the fixed one. *)
Lemma resume_query (i : nat) (st : State W) (cs : list (Closure W))
    (name : string) (org : AppLink.Org W) :
  cs !! i = Some (mkClosure name (AwaitQuery org)) ->
  snd (resume h i st cs)
  = Some (snd (settle (after_query name
                         (snd (AppLink.dataApi_query org "SELECT Name, Id FROM Account"
                                 (world st))))
                      st)).
Proof.
  intros Hc. unfold resume. rewrite Hc.
  change SOQL_ACCOUNTS with "SELECT Name, Id FROM Account".
  destruct (AppLink.dataApi_query _ _ _) as [w r].
  pose proof (settle_after_query name r (with_world w st)) as Hs.
  destruct (settle _ _) as [st' s]. cbn [snd] in *.
  now rewrite Hs, settle_after_query.
Qed.

(** No promise of the fan-out is ever rejected, so the handler never
    answers 500. *)
Lemma never_rejected (req : Request) (w0 : W) (schedule : list nat) :
  (forall e, all (get_index h req w0 schedule) <> RejectedWith e)
  /\ (forall status body,
        response (get_index h req w0 schedule) <> Some (Send status body)).
Proof.
  destruct (invariant_get_index h req w0 schedule) as (_ & _ & Hall & Hresp).
  rewrite Hresp, Hall. unfold all_of.
  destruct (mapM fulfilled_value _); split; intros; discriminate.
Qed.

(** The authorizations asked for in a run: those of the trimmed names,
    in the order of the names, and no other. *)
Lemma authorizations_asked (req : Request) (w0 : W) (schedule : list nat) :
  List.filter is_getAuthorization (trace (run_state (get_index h req w0 schedule)))
  = (λ n, Call_getAuthorization (Js.trim n)) <$> connectionNames h.
Proof.
  destruct (get_index_trace h req w0 schedule) as (extra & Heq & Hall).
  rewrite Heq, List.filter_app.
  assert (Hextra : List.filter is_getAuthorization extra = []).
  { clear Heq. induction extra as [|e extra IH]; [reflexivity |].
    cbn in Hall. apply andb_true_iff in Hall as [He Hall].
    cbn. destruct e; cbn in *; try discriminate; now apply IH. }
  rewrite Hextra, app_nil_r.
  generalize (connectionNames h). intros names.
  induction names as [|n ns IH]; [reflexivity |]. cbn. now f_equal.
Qed.

(** The outcome at each position carries the trimmed name. *)
Lemma resolved_names (req : Request) (w0 : W) (schedule : list nat)
    (outs : list PerConnectionOutcome) :
  all (get_index h req w0 schedule) = Resolved outs ->
  forall i name, connectionNames h !! i = Some name ->
    exists o, outs !! i = Some o /\ connectionName o = Js.trim name.
Proof.
  intros Hall i name Hi.
  destruct (resolved_positional _ _ _ (invariant_get_index h req w0 schedule) Hall)
    as [_ Hpos].
  destruct (Hpos i name Hi) as (o & Ho & Hname & _). eauto.
Qed.

(** C1. For every list of connection names, every collaborator and every
    order in which the pending calls complete: whenever [Promise.all] is
    resolved it holds exactly one outcome per name, the outcome at
    position [i] being the one of the closure of the [i]-th name; a
    schedule that completes every call resolves it and the page is
    rendered with these outcomes; with no names the result is empty. *)
Theorem C1_fanout_one_outcome_per_name_in_order
    (req : Request) (w0 : W) (schedule : list nat) :
  let names := connectionNames h in
  let fo := get_index h req w0 schedule in
  (forall outs, all fo = Resolved outs ->
     length outs = length names
     /\ forall i name, names !! i = Some name ->
          exists o, outs !! i = Some o
                    /\ connectionName o = Js.trim name
                    /\ stage <$> closures fo !! i = Some (Fulfilled o))
  /\ (complete_schedule (length names) schedule = true ->
      exists outs, all fo = Resolved outs
                   /\ response fo = Some (Render "pages/index" outs))
  /\ (names = [] -> response fo = Some (Render "pages/index" [])).
Proof.
  intros names fo. split; [| split].
  - intros outs Hall.
    exact (resolved_positional _ _ _ (invariant_get_index h req w0 schedule) Hall).
  - apply complete_resolves.
  - intros Hnil.
    destruct (complete_resolves h req w0 schedule) as (outs & Hall & Hresp).
    { fold names. now rewrite Hnil. }
    destruct (resolved_positional _ _ _ (invariant_get_index h req w0 schedule) Hall)
      as [Hlen _].
    fold names in Hlen. rewrite Hnil in Hlen.
    destruct outs; [exact Hresp | discriminate].
Qed.

(** C7. Every name is trimmed before it is used. A name is a string of
    code units below 256, where the white space [trim] removes is TAB, LF,
    VT, FF, CR, SP and NBSP. Every name is leading white space, a part that
    neither begins nor ends with white space, and trailing white space;
    [trim] returns that part, however the name is cut. For the name at
    position [i], cut so: the [i]-th authorization asked for is the one of
    the part, the session the closure goes on with is the one resolved
    under the part, and the outcome at position [i] carries the part as its
    name. So for all names at once: the authorizations asked for are those
    of the trimmed names, in order, and the outcome carries the trimmed
    name in the failure shape as in the success shape. *)
Theorem C7_names_trimmed_for_lookup_and_outcome
    (req : Request) (w0 : W) (schedule : list nat) :
  let names := connectionNames h in
  let fo := get_index h req w0 schedule in
  let WhiteSpace := λ c : ascii, nat_of_ascii c ∈ [9; 10; 11; 12; 13; 32; 160]%nat in
  let blank := λ s : string, forall c, c ∈ list_ascii_of_string s -> WhiteSpace c in
  let bare := λ s : string,
    forall c, head (list_ascii_of_string s) = Some c
              \/ last (list_ascii_of_string s) = Some c -> ~ WhiteSpace c in
  (forall name, exists leading kept trailing,
      name = leading +:+ kept +:+ trailing
      /\ blank leading /\ bare kept /\ blank trailing)
  /\ (forall leading kept trailing,
        blank leading -> bare kept -> blank trailing ->
        Js.trim (leading +:+ kept +:+ trailing) = kept)
  /\ (forall i leading kept trailing,
        names !! i = Some (leading +:+ kept +:+ trailing) ->
        blank leading -> bare kept -> blank trailing ->
        List.filter is_getAuthorization (trace (run_state fo)) !! i
        = Some (Call_getAuthorization kept)
        /\ (forall st cs,
              cs !! i = Some (mkClosure (leading +:+ kept +:+ trailing) AwaitAuthorization) ->
              snd (resume h i st cs)
              = Some (match snd (AppLink.getAuthorization (sdk h) kept (world st)) with
                      | Ok org => AwaitQuery org
                      | Err e => Fulfilled (mkOutcome kept (Some (Js.message e)) [])
                      end))
        /\ (forall outs, all fo = Resolved outs ->
              exists o, outs !! i = Some o /\ connectionName o = kept))
  /\ List.filter is_getAuthorization (trace (run_state fo))
     = (λ n, Call_getAuthorization (Js.trim n)) <$> names
  /\ (forall i st cs name,
        cs !! i = Some (mkClosure name AwaitAuthorization) ->
        snd (resume h i st cs)
        = Some (match snd (AppLink.getAuthorization (sdk h) (Js.trim name) (world st)) with
                | Ok org => AwaitQuery org
                | Err e => Fulfilled (mkOutcome (Js.trim name) (Some (Js.message e)) [])
                end))
  /\ (forall outs, all fo = Resolved outs ->
        forall i name, names !! i = Some name ->
          exists o, outs !! i = Some o /\ connectionName o = Js.trim name)
  /\ (forall name e (st : State W),
        snd (settle (on_error name e) st)
        = Fulfilled (mkOutcome (Js.trim name) (Some (Js.message e)) []))
  /\ (forall name queryResult accts (st : State W),
        mapM project (AppLink.records queryResult) = Ok accts ->
        snd (settle (after_query name (Ok queryResult)) st)
        = Fulfilled (mkOutcome (Js.trim name) None accts)).
Proof.
  intros names fo WhiteSpace blank bare.
  assert (Hunique : forall leading kept trailing,
             blank leading -> bare kept -> blank trailing ->
             Js.trim (leading +:+ kept +:+ trailing) = kept).
  { intros leading kept trailing Hl Hk Ht.
    apply trim_unique; [apply blank_codes, Hl | apply blank_codes, Ht |].
    apply bare_codes, Hk. }
  split; [| split; [exact Hunique | split; [| repeat split]]].
  - intros name.
    destruct (trim_splits name) as (leading & trailing & Hname & Hl & Ht & Hk).
    exists leading, (Js.trim name), trailing.
    rewrite forallb_forall in Hl, Ht.
    repeat split; [exact Hname | | |].
    + intros c Hc. apply is_whitespace_codes, Hl, list_elem_of_In, Hc.
    + intros c Hc Hw. apply is_whitespace_codes in Hw.
      now rewrite (Hk c Hc) in Hw.
    + intros c Hc. apply is_whitespace_codes, Ht, list_elem_of_In, Hc.
  - intros i leading kept trailing Hi Hl Hk Ht.
    pose proof (Hunique leading kept trailing Hl Hk Ht) as Htrim.
    repeat split.
    + unfold fo. rewrite authorizations_asked, list_lookup_fmap. fold names.
      rewrite Hi. cbn. now rewrite Htrim.
    + intros st cs Hc. rewrite (resume_authorization i st cs _ Hc). now rewrite Htrim.
    + intros outs Hall.
      destruct (resolved_names req w0 schedule outs Hall i _ Hi) as (o & Ho & Hname).
      exists o. split; [exact Ho |]. now rewrite Hname.
  - apply authorizations_asked.
  - intros i st cs name. apply resume_authorization.
  - intros outs Hall. exact (resolved_names req w0 schedule outs Hall).
  - intros name queryResult accts st Hproj.
    rewrite settle_after_query. now rewrite Hproj.
Qed.

(** C8, as the code has it. The handler takes no query text from its
    caller: whatever the request, the text handed to the query engine for
    each connection is the literal [SELECT Name, Id FROM Account], as it
    stands. *)
Theorem C8_query_text_is_the_fixed_literal
    (req : Request) (w0 : W) (schedule : list nat) :
  (forall orgId soql,
     Call_query orgId soql ∈ trace (run_state (get_index h req w0 schedule)) ->
     soql = "SELECT Name, Id FROM Account")
  /\ (forall i st cs name org,
        cs !! i = Some (mkClosure name (AwaitQuery org)) ->
        snd (resume h i st cs)
        = Some (snd (settle (after_query name
                               (snd (AppLink.dataApi_query org
                                       "SELECT Name, Id FROM Account" (world st))))
                            st)))
  /\ (forall req', get_index h req' w0 schedule = get_index h req w0 schedule).
Proof.
  repeat split.
  - intros orgId soql Hin.
    destruct (get_index_trace h req w0 schedule) as (extra & Heq & Hall).
    rewrite Heq in Hin. apply elem_of_app in Hin as [Hin | Hin].
    + apply list_elem_of_fmap in Hin as (n & Hn & _). discriminate.
    + rewrite forallb_forall in Hall.
      apply list_elem_of_In, Hall in Hin. cbn in Hin.
      now apply bool_decide_eq_true_1 in Hin.
  - intros i st cs name org. apply resume_query.
Qed.

End FanOutClaims.

Section FanOutIsolation.
Context {W : Type} (h : Host W).

(** C2, as the code has it. For every collaborator, with or without state
    of its own, and every order of completion: if a step of connection [k]
    raised [e] (its session resolution or its query was rejected with [e],
    or the projection of a record threw it), the page is still rendered,
    no promise is rejected and no 500 is sent, and the outcome at position
    [k] is the trimmed name, no accounts and the message of [e] as it is,
    so that its error is non-empty exactly when that message is. The
    outcome of a connection is decided by its own name and by what its own
    calls are answered: at every position where a second run, against any
    collaborator and in any order, has the same name and gets the same
    answers, the outcome is the same, whatever connection [k] is answered
    there and even if it bears the same name; and a step of connection [k]
    leaves the closure at every other position as it was. *)
Theorem C2_failure_absorbed_per_connection
    (h' : Host W) (req req' : Request) (w0 w0' : W) (schedule schedule' : list nat)
    (k : nat) (name : string) (e : Js.Error) :
  connectionNames h !! k = Some name ->
  raised (received h (begin_index h w0) schedule k) e ->
  complete_schedule (length (connectionNames h)) schedule = true ->
  complete_schedule (length (connectionNames h')) schedule' = true ->
  exists outs outs',
    response (get_index h req w0 schedule) = Some (Render "pages/index" outs)
    /\ (forall e', all (get_index h req w0 schedule) <> RejectedWith e')
    /\ (forall status body,
          response (get_index h req w0 schedule) <> Some (Send status body))
    /\ outs !! k = Some (mkOutcome (Js.trim name) (Some (Js.message e)) [])
    /\ ((exists o msg, outs !! k = Some o /\ error o = Some msg /\ msg <> "")
        <-> Js.message e <> "")
    /\ response (get_index h' req' w0' schedule') = Some (Render "pages/index" outs')
    /\ (forall j,
          connectionNames h' !! j = connectionNames h !! j ->
          received h' (begin_index h' w0') schedule' j
          = received h (begin_index h w0) schedule j ->
          outs' !! j = outs !! j)
    /\ (forall (fo : FanOut W) j c,
          closures fo !! j = Some c -> j <> k ->
          closures (advance h fo k) !! j = Some c).
Proof.
  intros Hk Hraised Hsched Hsched'.
  destruct (complete_resolves h req w0 schedule Hsched) as (outs & Hall & Hresp).
  destruct (complete_resolves h' req' w0' schedule' Hsched') as (outs' & Hall' & Hresp').
  destruct (resolved_positional _ _ _ (invariant_get_index h req w0 schedule) Hall)
    as [Hlen Hpos].
  destruct (resolved_positional _ _ _ (invariant_get_index h' req' w0' schedule') Hall')
    as [Hlen' Hpos'].
  exists outs, outs'.
  assert (Hat : outs !! k = Some (mkOutcome (Js.trim name) (Some (Js.message e)) [])).
  { destruct (Hpos k name Hk) as (o & Ho & _ & Hstage).
    rewrite (get_index_received h req w0 schedule k name Hk) in Hstage.
    rewrite (raised_outcome name _ e Hraised) in Hstage.
    injection Hstage as <-. exact Ho. }
  split; [exact Hresp |].
  split; [apply (never_rejected h req w0 schedule) |].
  split; [apply (never_rejected h req w0 schedule) |].
  split; [exact Hat |].
  split; [| split; [exact Hresp' | split]].
  - rewrite Hat. split.
    + intros (o & msg & [= <-] & [= <-] & Hmsg). exact Hmsg.
    + intros Hmsg. eexists _, _. split; [reflexivity |]. split; [reflexivity | exact Hmsg].
  - intros j Hname Hsame.
    destruct (connectionNames h !! j) as [other|] eqn:Hj.
    + destruct (Hpos j other Hj) as (o & Ho & _ & Hstage).
      destruct (Hpos' j other Hname) as (o' & Ho' & _ & Hstage').
      rewrite (get_index_received h req w0 schedule j other Hj) in Hstage.
      rewrite (get_index_received h' req' w0' schedule' j other Hname), Hsame in Hstage'.
      rewrite Hstage in Hstage'. injection Hstage' as ->. now rewrite Ho, Ho'.
    + apply lookup_ge_None in Hj, Hname.
      rewrite !lookup_ge_None_2; [reflexivity | lia | lia].
  - intros fo j c Hc Hjk.
    destruct (advance_closure h fo k j c Hc) as (c' & Hc' & _ & Hsame' & _).
    now rewrite (Hsame' Hjk) in Hc'.
Qed.

End FanOutIsolation.

(** C2, counterexamples. First, to the error being non-empty: the
    authorization of connection 1 is rejected with an [Error] without a
    message, and the error of the outcome at position 1 is the empty
    string. Second, to the outcome of another connection being what it
    would be without the failure, whatever the collaborator: against a
    collaborator that locks itself once it has refused a connection, the
    refusal of [org-b] leaves [org-a] with an error, where without that
    refusal it has its accounts; the outcome of [org-a] follows what
    [org-a] itself is answered. *)
Lemma C2_counterexample :
  (raised (received blank_refusal (begin_index blank_refusal tt) [1; 0; 0]%nat 1)
          (Js.mkError "Error" "")
   /\ (exists o0, all (get_index blank_refusal no_request tt [1; 0; 0]%nat)
                  = Resolved [o0; mkOutcome "org-b" (Some "") []])
   /\ ~ (exists outs o msg,
           all (get_index blank_refusal no_request tt [1; 0; 0]%nat) = Resolved outs
           /\ outs !! 1%nat = Some o /\ error o = Some msg /\ msg <> ""))
  /\ (raised (received (locks_after_refusing "org-b")
                (begin_index (locks_after_refusing "org-b") false) [0; 1; 0; 1]%nat 0)
             invalid_grant
      /\ all (get_index (locks_after_refusing "org-b") no_request false [0; 1; 0; 1]%nat)
         = Resolved [mkOutcome "org-b" (Some "invalid_grant") [];
                     mkOutcome "org-a" (Some "session locked") []]
      /\ (exists row,
            all (get_index (locks_after_refusing "") no_request false [0; 1; 0; 1]%nat)
            = Resolved [mkOutcome "org-b" None [row]; mkOutcome "org-a" None [row]])).
Proof.
  split; [split; [reflexivity | split] |].
  - eexists. vm_compute. reflexivity.
  - intros (outs & o & msg & Hall & Ho & Herr & Hmsg).
    vm_compute in Hall. injection Hall as <-.
    cbn in Ho. injection Ho as <-. cbn in Herr. injection Herr as <-.
    now apply Hmsg.
  - split; [reflexivity |]. split; [vm_compute; reflexivity |].
    eexists. vm_compute. reflexivity.
Qed.

Lemma C2_witness :
  exists outs outs',
    response (get_index refuses_first no_request 0%nat [0; 1; 0; 1]%nat)
    = Some (Render "pages/index" outs)
    /\ outs !! 0%nat = Some (mkOutcome "org-a" (Some "invalid_grant") [])
    /\ response (get_index refuses_none no_request 5%nat [1; 0; 1; 0]%nat)
       = Some (Render "pages/index" outs')
    /\ outs' !! 1%nat = outs !! 1%nat
    /\ (exists accts, outs !! 1%nat = Some (mkOutcome "org-a" None accts)).
Proof.
  destruct (C2_failure_absorbed_per_connection refuses_first refuses_none
              no_request no_request 0%nat 5%nat [0; 1; 0; 1]%nat [1; 0; 1; 0]%nat
              0%nat "org-a" invalid_grant)
    as (outs & outs' & Hresp & _ & _ & Hat & _ & Hresp' & Hother & _).
  - reflexivity.
  - reflexivity.
  - reflexivity.
  - reflexivity.
  - exists outs, outs'.
    split; [exact Hresp |]. split; [exact Hat |]. split; [exact Hresp' |].
    split; [apply (Hother 1%nat); reflexivity |].
    vm_compute in Hresp. injection Hresp as <-. eexists. reflexivity.
Defined.

Lemma C1_witness :
  exists outs,
    response (get_index two_orgs no_request tt [1; 0; 1; 0]%nat)
    = Some (Render "pages/index" outs)
    /\ length outs = 2%nat
    /\ (exists o, outs !! 1%nat = Some o /\ connectionName o = "org-b").
Proof.
  destruct (C1_fanout_one_outcome_per_name_in_order two_orgs no_request tt [1; 0; 1; 0]%nat)
    as (Hpos & Hcomplete & _).
  destruct (Hcomplete eq_refl) as (outs & Hall & Hresp).
  destruct (Hpos outs Hall) as [Hlen Hat].
  destruct (Hat 1%nat " org-b" eq_refl) as (o & Ho & Hname & _).
  exists outs. repeat split; [exact Hresp | exact Hlen | exists o; split; assumption].
Defined.

Lemma C7_witness :
  connectionNames padded_names
  = [String "009" "org-a "; "  org-b" +:+ String "160" (String "010" "")]
  /\ List.filter is_getAuthorization
       (trace (run_state (get_index padded_names no_request tt [1; 0; 1; 0]%nat)))
     = [Call_getAuthorization "org-a"; Call_getAuthorization "org-b"]
  /\ (exists outs o,
        all (get_index padded_names no_request tt [1; 0; 1; 0]%nat) = Resolved outs
        /\ outs !! 1%nat = Some o
        /\ connectionName o = "org-b" /\ error o = Some "invalid_grant").
Proof.
  pose proof (C7_names_trimmed_for_lookup_and_outcome padded_names no_request tt
                [1; 0; 1; 0]%nat) as (_ & _ & Hat & Hcalls & _).
  split; [reflexivity |]. split; [exact Hcalls |].
  destruct (Hat 1%nat "  " "org-b" (String "160" (String "010" ""))) as (_ & _ & Houts).
  - reflexivity.
  - intros c Hc. apply list_elem_of_In in Hc. cbn in Hc.
    destruct Hc as [<- | [<- | []]]; apply (proj1 (bool_decide_eq_true _)); reflexivity.
  - intros c [[= <-] | [= <-]]; apply (proj1 (bool_decide_eq_false _)); reflexivity.
  - intros c Hc. apply list_elem_of_In in Hc. cbn in Hc.
    destruct Hc as [<- | [<- | []]]; apply (proj1 (bool_decide_eq_true _)); reflexivity.
  - destruct (complete_resolves padded_names no_request tt [1; 0; 1; 0]%nat eq_refl)
      as (outs & Hall & _).
    destruct (Houts outs Hall) as (o & Ho & Hname).
    exists outs, o. repeat split; [exact Hall | exact Ho | exact Hname |].
    vm_compute in Hall. injection Hall as <-. cbn in Ho. now injection Ho as <-.
Defined.

Lemma C8_witness :
  exists soql,
    trace (run_state (get_index two_orgs contact_request tt [0; 0]%nat)) !! 3%nat
    = Some (Call_query "00Dxx0000000001" soql)
    /\ soql = "SELECT Name, Id FROM Account".
Proof.
  assert (Hfourth : exists soql,
             trace (run_state (get_index two_orgs contact_request tt [0; 0]%nat)) !! 3%nat
             = Some (Call_query "00Dxx0000000001" soql))
    by (eexists; vm_compute; reflexivity).
  destruct Hfourth as (soql & Hfourth). exists soql. split; [exact Hfourth |].
  apply (proj1 (C8_query_text_is_the_fixed_literal two_orgs contact_request tt
                  [0; 0]%nat) "00Dxx0000000001" soql).
  eapply list_elem_of_lookup_2, Hfourth.
Defined.

(** C8, counterexample to the text coming from the caller: the request
    asks for [SELECT Id FROM Contact] and the engine is handed
    [SELECT Name, Id FROM Account]. *)
Lemma C8_counterexample :
  let queryText := "SELECT Id FROM Contact" in
  let run := get_index two_orgs contact_request tt [0; 0]%nat in
  req_query contact_request !! "queryText" = Some queryText
  /\ Call_query "00Dxx0000000001" "SELECT Name, Id FROM Account" ∈ trace (run_state run)
  /\ ~ (forall orgId soql, Call_query orgId soql ∈ trace (run_state run) -> soql = queryText).
Proof.
  intros queryText run.
  assert (Hin : Call_query "00Dxx0000000001" "SELECT Name, Id FROM Account"
                ∈ trace (run_state run)).
  { vm_compute. apply list_elem_of_In. cbn. auto 10. }
  split; [reflexivity |]. split; [exact Hin |].
  intros Hclaim. specialize (Hclaim _ _ Hin). discriminate.
Qed.



Section BulkDemoClaims.
Context {W : Type} (h : Host W).

(** C9. The bulk demo looks for the exact text [empty-org] among the
    names as they were split, untrimmed: when it is not there the answer
    is 400 and nothing is called, when it is there the handler goes on to
    resolve it; an entry that is [empty-org] only once trimmed does not
    count, although the fan-out resolves that same entry under
    [empty-org] and names its outcome so. *)
Theorem C9_bulk_demo_checks_the_untrimmed_names (req : Request) :
  (forall st, "empty-org" ∉ connectionNames h ->
              get_bulk_demo h req st
              = (st, Ok (Send 400 "empty-org connection not found")))
  /\ (forall w d, "empty-org" ∈ connectionNames h ->
        exists rest, trace (fst (get_bulk_demo h req (mkState w d [])))
                     = Call_getAuthorization "empty-org" :: rest)
  /\ (forall i entry w0 schedule,
        connectionNames h !! i = Some entry ->
        Js.trim entry = "empty-org" ->
        List.filter is_getAuthorization
          (trace (run_state (get_index h req w0 schedule))) !! i
        = Some (Call_getAuthorization "empty-org")
        /\ forall outs, all (get_index h req w0 schedule) = Resolved outs ->
             exists o, outs !! i = Some o /\ connectionName o = "empty-org").
Proof.
  split; [| split].
  - intros st. apply bulk_demo_rejects.
  - intros w d. apply bulk_demo_proceeds.
  - intros i entry w0 schedule Hi Htrim.
    split.
    + rewrite authorizations_asked, list_lookup_fmap, Hi. cbn. now rewrite Htrim.
    + intros outs Hall. rewrite <- Htrim.
      exact (resolved_names h req w0 schedule outs Hall i entry Hi).
Qed.

(** C10. [generateBusinessName] always returns a name that begins with
    [Bulk Account ] and is at most 255 long, so the name satisfies the
    [LIKE 'Bulk Account%'] of the existence check; and every submission
    of the bulk demo is an insert of a thousand accounts so named. *)
Theorem C10_generated_names_match_the_existence_check :
  (forall st : State W,
     exists nm,
       generateBusinessName h st
       = (mkState (world st) (drawn st + 5) (trace st), Ok nm)
       /\ String.prefix "Bulk Account " nm = true
       /\ (String.length nm <= 255)%nat
       /\ Soql.like nm "Bulk Account%" = true)
  /\ (forall req w d orgId soql,
        Call_query orgId soql ∈ trace (fst (get_bulk_demo h req (mkState w d []))) ->
        soql = "SELECT Id FROM Account WHERE Name LIKE 'Bulk Account%'")
  /\ (forall req w d,
        forallb ingest_guarded (trace (fst (get_bulk_demo h req (mkState w d []))))
        = true).
Proof.
  split; [| split].
  - intros st. destruct (generateBusinessName_returns h st) as (rest & Heq & Hrest).
    eexists. split; [exact Heq |]. split; [apply prefix_append |]. split.
    + rewrite length_append. simpl. lia.
    + apply (like_bulk_prefix (" " +:+ rest)).
  - intros req w d orgId soql. apply bulk_demo_query_text.
  - intros req w d. apply bulk_demo_ingests_guarded.
Qed.

End BulkDemoClaims.

Lemma C9_witness :
  connectionNames spaced_names = ["my-org"; " empty-org"]
  /\ get_bulk_demo spaced_names no_request (mkState tt 0%nat [])
     = (mkState tt 0%nat [], Ok (Send 400 "empty-org connection not found"))
  /\ response (get_index spaced_names no_request tt [0; 1; 1]%nat)
     = Some (Render "pages/index"
               [mkOutcome "my-org" (Some "invalid_grant") [];
                mkOutcome "empty-org" None []])
  /\ (exists rest,
        trace (fst (get_bulk_demo exact_names no_request (mkState tt 0%nat [])))
        = Call_getAuthorization "empty-org" :: rest).
Proof.
  destruct (C9_bulk_demo_checks_the_untrimmed_names spaced_names no_request)
    as (Hreject & _ & _).
  destruct (C9_bulk_demo_checks_the_untrimmed_names exact_names no_request)
    as (_ & Hproceed & _).
  split; [reflexivity |]. split; [| split].
  - apply Hreject. vm_compute. intros Hin.
    apply list_elem_of_In in Hin. cbn in Hin. intuition discriminate.
  - vm_compute. reflexivity.
  - apply Hproceed. vm_compute. apply list_elem_of_In. cbn. auto.
Defined.

Lemma C10_witness :
  Call_query "00Dxx0000000003" "SELECT Id FROM Account WHERE Name LIKE 'Bulk Account%'"
  ∈ trace (fst (get_bulk_demo exact_names no_request (mkState tt 0%nat [])))
  /\ existsb is_ingest
       (trace (fst (get_bulk_demo exact_names no_request (mkState tt 0%nat [])))) = true
  /\ forallb ingest_guarded
       (trace (fst (get_bulk_demo exact_names no_request (mkState tt 0%nat [])))) = true.
Proof.
  destruct (C10_generated_names_match_the_existence_check exact_names)
    as (_ & Hquery & Hguarded).
  destruct (bulk_demo_proceeds exact_names no_request tt 0%nat) as (rest & Hrest).
  { vm_compute. apply list_elem_of_In. cbn. auto. }
  split; [| split; [| apply Hguarded]].
  - assert (Hex : exists orgId soql,
               Call_query orgId soql
               ∈ trace (fst (get_bulk_demo exact_names no_request (mkState tt 0%nat [])))
               /\ orgId = "00Dxx0000000003").
    { assert (Hthird : trace (fst (get_bulk_demo exact_names no_request
                                     (mkState tt 0%nat []))) !! 2%nat
                       = Some (Call_query "00Dxx0000000003" SOQL_BULK_ACCOUNTS))
        by (vm_compute; reflexivity).
      eexists _, _. split; [eapply list_elem_of_lookup_2, Hthird | reflexivity]. }
    destruct Hex as (orgId & soql & Hin & ->).
    now rewrite <- (Hquery no_request tt 0%nat _ _ Hin).
  - vm_compute. reflexivity.
Defined.

Section MonitorClaims.
Context (script : nat -> Res AppLink.JobInfo) (failed : Res AppLink.FailedResults)
        (job : AppLink.JobRef).

Lemma polls_waiting (n : nat) :
  (forall i, (i < n)%nat -> keeps_polling (script i) = true) ->
  polls (waiting job script 0 n) = n
  /\ suspensions (waiting job script 0 n) = n
  /\ fetches (waiting job script 0 n) = 0%nat
  /\ success_logs (waiting job script 0 n) = 0%nat.
Proof.
  intros Hkeep. unfold polls, suspensions, fetches, success_logs.
  rewrite (count_waiting script job is_getInfo 1), (count_waiting script job is_timeout 1),
    (count_waiting script job is_getFailedResults 0),
    (count_waiting script job is_success_log 0); auto with lia.
Qed.

Lemma counts_finalization (info : AppLink.JobInfo) :
  polls (finalization job failed info) = 0%nat
  /\ suspensions (finalization job failed info) = 0%nat
  /\ fetches (finalization job failed info)
     = (if String.eqb (AppLink.state info) "JobComplete"
           && (0 <? AppLink.numberRecordsFailed info)
        then 1%nat else 0%nat)
  /\ success_logs (finalization job failed info)
     = (if String.eqb (AppLink.state info) "JobComplete"
           && negb (0 <? AppLink.numberRecordsFailed info)
        then 1%nat else 0%nat).
Proof.
  unfold finalization.
  destruct (String.eqb _ _), (0 <? _), failed; cbn; auto.
Qed.

(** Polls, suspensions, fetches and success logs of a run that returns
    on the terminal snapshot of poll [n]. *)
Lemma counts_terminal_run (n : nat) (info : AppLink.JobInfo) :
  (forall i, (i < n)%nat -> keeps_polling (script i) = true) ->
  let t := waiting job script 0 n ++ observed job info ++ finalization job failed info in
  polls t = S n
  /\ suspensions t = n
  /\ fetches t = (if String.eqb (AppLink.state info) "JobComplete"
                    && (0 <? AppLink.numberRecordsFailed info)
                 then 1%nat else 0%nat)
  /\ success_logs t = (if String.eqb (AppLink.state info) "JobComplete"
                         && negb (0 <? AppLink.numberRecordsFailed info)
                      then 1%nat else 0%nat).
Proof.
  intros Hkeep t. subst t.
  destruct (polls_waiting n Hkeep) as (Hp & Hs & Hf & Hl).
  destruct (counts_finalization info) as (Hp' & Hs' & Hf' & Hl').
  unfold polls, suspensions, fetches, success_logs in *.
  rewrite !count_events_app, Hp, Hs, Hf, Hl, Hp', Hs', Hf', Hl'.
  cbn. repeat split; lia.
Qed.

(** C3. When the poll at [n] is the first to answer a terminal snapshot,
    the monitor returns, having polled [n + 1] times and no more however
    long it is left to run, and having suspended [n] times. On
    [JobComplete] with no failed record it writes exactly one success
    line, with the processed count, and fetches nothing; on [JobComplete]
    with failed records it fetches their detail exactly once and, the
    detail returned, writes it; on [Failed] or [Aborted] it writes the
    state as an error. *)
Theorem C3_monitor_finalizes_on_a_terminal_snapshot
    (n fuel : nat) (info : AppLink.JobInfo) :
  (forall i, (i < n)%nat -> keeps_polling (script i) = true) ->
  script n = Ok info -> is_terminal info = true -> (n < fuel)%nat ->
  exists st,
    monitor_script fuel script failed job = (st, Ok Returned)
    /\ polls (trace st) = S n
    /\ suspensions (trace st) = n
    /\ (AppLink.state info = "JobComplete" -> AppLink.numberRecordsFailed info = 0 ->
        success_logs (trace st) = 1%nat
        /\ fetches (trace st) = 0%nat
        /\ last (trace st)
           = Some (Console console_log (Job_completed_successfully (AppLink.job_id job)
                              (AppLink.numberRecordsProcessed info))))
    /\ (AppLink.state info = "JobComplete" -> 0 < AppLink.numberRecordsFailed info ->
        fetches (trace st) = 1%nat
        /\ success_logs (trace st) = 0%nat
        /\ forall detail, failed = Ok detail ->
             exists before,
               trace st = before ++ [Call_getFailedResults (Some job);
                                     Console console_error (Failed_records detail)])
    /\ (AppLink.state info = "Failed" \/ AppLink.state info = "Aborted" ->
        fetches (trace st) = 0%nat
        /\ success_logs (trace st) = 0%nat
        /\ last (trace st)
           = Some (Console console_error (Job_ended_in_state (AppLink.job_id job)
                              (AppLink.state info)))).
Proof.
  intros Hkeep Hn Hterm Hfuel.
  eexists. split; [exact (monitor_terminal script failed job n fuel info Hkeep Hn Hterm Hfuel) |].
  cbn [trace].
  destruct (counts_terminal_run n info Hkeep) as (Hp & Hs & Hf & Hl).
  rewrite Hp, Hs, Hf, Hl.
  split; [reflexivity |]. split; [reflexivity |].
  split; [| split].
  - intros Hstate Hzero. rewrite Hstate, Hzero. cbn.
    repeat split.
    unfold finalization. rewrite Hstate, Hzero. cbn.
    now rewrite last_app.
  - intros Hstate Hpos. rewrite Hstate. apply Z.ltb_lt in Hpos. rewrite Hpos. cbn.
    repeat split.
    intros detail ->. unfold finalization. rewrite Hstate, Hpos. cbn.
    exists (waiting job script 0 n ++ observed job info).
    rewrite <- app_assoc. unfold observed. now rewrite Hstate.
  - intros Hstate.
    assert (Hne : String.eqb (AppLink.state info) "JobComplete" = false)
      by (destruct Hstate as [-> | ->]; reflexivity).
    rewrite Hne. cbn. repeat split.
    unfold finalization. rewrite Hne.
    now rewrite !last_app.
Qed.

Ltac in_trace H :=
  repeat first
    [ apply elem_of_app in H as [H | H]
    | apply elem_of_cons in H as [H | H]
    | apply elem_of_nil in H; contradiction
    | discriminate H ].

Lemma timeout_in_waiting (ms : Z) (n : nat) :
  forall k, SetTimeout ms ∈ waiting job script k n -> ms = 5000.
Proof.
  induction n as [|n IH]; intros k Hin; cbn [waiting] in Hin.
  - now apply elem_of_nil in Hin.
  - apply elem_of_app in Hin as [Hin | Hin]; [| exact (IH _ Hin)].
    unfold waiting_round in Hin. destruct (script k); in_trace Hin.
    now injection Hin.
Qed.

(** A poll stops the monitor when it answers a terminal state or raises. *)
Lemma stops_iff (r : Res AppLink.JobInfo) :
  keeps_polling r = false
  <-> (exists info, r = Ok info /\ AppLink.state info ∈ TERMINAL_STATES)
      \/ (exists e, r = Err e).
Proof.
  unfold keeps_polling, is_terminal, Js.includes. destruct r as [info|e].
  - rewrite negb_false_iff, bool_decide_eq_true. split.
    + intros Hin. left. eauto.
    + intros [(info' & [= <-] & Hin) | (e & He)]; [exact Hin | discriminate].
  - split; [eauto | reflexivity].
Qed.

(** Every bounded run is of one of two kinds: still polling after [fuel]
    rounds, or returned at the first poll that stops it. *)
Lemma monitor_cases (fuel : nat) :
  ((forall i, (i < fuel)%nat -> keeps_polling (script i) = true)
   /\ monitor_script fuel script failed job
      = (mkState fuel 0%nat (waiting job script 0 fuel), Ok StillPolling))
  \/ (exists m, (m < fuel)%nat
                /\ (forall i, (i < m)%nat -> keeps_polling (script i) = true)
                /\ keeps_polling (script m) = false
                /\ monitor_script fuel script failed job
                   = (mkState (S m) 0%nat (waiting job script 0 m ++ last_round job script failed m),
                      Ok Returned)).
Proof.
  destruct (existsb (λ i, negb (keeps_polling (script i))) (seq 0 fuel)) eqn:Hstop.
  - right. apply existsb_exists in Hstop as (n & Hn & Hnstop).
    apply in_seq in Hn. apply negb_true_iff in Hnstop.
    destruct (first_stop script n Hnstop) as (m & Hle & Hmstop & Hbefore).
    exists m. repeat split; [lia | exact Hbefore | exact Hmstop |].
    unfold last_round. unfold keeps_polling in Hmstop.
    destruct (script m) as [info|e] eqn:Hm.
    + apply negb_false_iff in Hmstop.
      apply (monitor_terminal script failed job m fuel info); auto with lia.
    + apply (monitor_poll_raises script failed job m fuel e); auto with lia.
  - left.
    assert (Hkeep : forall i, (i < fuel)%nat -> keeps_polling (script i) = true).
    { intros i Hi. destruct (keeps_polling (script i)) eqn:Hi'; [reflexivity |].
      assert (Hex : existsb (λ i, negb (keeps_polling (script i))) (seq 0 fuel) = true).
      { apply existsb_exists. exists i. split; [apply in_seq; lia | now rewrite Hi']. }
      congruence. }
    split; [exact Hkeep | now apply monitor_still_polling].
Qed.

(** C4. While the snapshots are not terminal, each round polls once and
    then suspends, so [n] rounds leave [n] polls and [n] suspensions;
    every suspension is of 5000 ms; the monitor returns if and only if
    some poll answers a terminal state or raises; against a script that
    never does, it is still polling after any number of rounds; and on two
    non-terminal snapshots followed by a terminal one it polls three times
    with a suspension after the first and after the second. *)
Theorem C4_monitor_polls_every_five_seconds_until_stopped :
  (forall n, (forall i, (i < n)%nat -> keeps_polling (script i) = true) ->
             exists st,
               monitor_script n script failed job = (st, Ok StillPolling)
               /\ trace st = waiting job script 0 n
               /\ polls (trace st) = n
               /\ suspensions (trace st) = n)
  /\ (forall fuel ms,
        SetTimeout ms ∈ trace (fst (monitor_script fuel script failed job)) ->
        ms = 5000)
  /\ ((exists fuel st, monitor_script fuel script failed job = (st, Ok Returned))
      <-> exists n,
            (exists info, script n = Ok info /\ AppLink.state info ∈ TERMINAL_STATES)
            \/ (exists e, script n = Err e))
  /\ ((forall n, keeps_polling (script n) = true) ->
      forall fuel,
        exists st, monitor_script fuel script failed job = (st, Ok StillPolling)
                   /\ polls (trace st) = fuel)
  /\ (forall i0 i1 i2 fuel,
        script 0%nat = Ok i0 -> script 1%nat = Ok i1 -> script 2%nat = Ok i2 ->
        is_terminal i0 = false -> is_terminal i1 = false -> is_terminal i2 = true ->
        (3 <= fuel)%nat ->
        exists st,
          monitor_script fuel script failed job = (st, Ok Returned)
          /\ polls (trace st) = 3%nat
          /\ suspensions (trace st) = 2%nat
          /\ trace st
             = observed job i0 ++ [SetTimeout 5000]
               ++ observed job i1 ++ [SetTimeout 5000]
               ++ observed job i2 ++ finalization job failed i2).
Proof.
  split; [| split; [| split; [| split]]].
  - intros n Hkeep. eexists. split; [now apply monitor_still_polling |].
    cbn [trace]. destruct (polls_waiting n Hkeep) as (Hp & Hs & _). auto.
  - intros fuel ms Hin.
    destruct (monitor_cases fuel) as [(_ & Heq) | (m & _ & _ & _ & Heq)];
      rewrite Heq in Hin; cbn [fst trace] in Hin.
    + exact (timeout_in_waiting ms fuel 0%nat Hin).
    + apply elem_of_app in Hin as [Hin | Hin];
        [exact (timeout_in_waiting ms m 0%nat Hin) |].
      unfold last_round, observed, finalization in Hin.
      destruct (script m) as [info|e]; [| in_trace Hin].
      destruct (String.eqb _ _); [destruct (0 <? _); [destruct failed |] |];
        in_trace Hin.
  - split.
    + intros (fuel & st & Hrun).
      destruct (monitor_cases fuel) as [(_ & Heq) | (m & _ & _ & Hstop & _)];
        [congruence |].
      exists m. now apply stops_iff.
    + intros (n & Hstop). apply stops_iff in Hstop.
      destruct (first_stop script n Hstop) as (m & _ & Hmstop & Hbefore).
      destruct (monitor_cases (S m)) as [(Hkeep & _) | (m' & _ & _ & _ & Heq)].
      * rewrite Hkeep in Hmstop by lia. discriminate.
      * eauto.
  - intros Hall fuel. eexists. split; [apply monitor_still_polling; auto |].
    cbn [trace]. apply polls_waiting. auto.
  - intros i0 i1 i2 fuel H0 H1 H2 Ht0 Ht1 Ht2 Hfuel.
    assert (Hkeep : forall i, (i < 2)%nat -> keeps_polling (script i) = true).
    { intros [|[|i]] Hi; [| | lia]; unfold keeps_polling.
      - now rewrite H0, Ht0.
      - now rewrite H1, Ht1. }
    destruct (counts_terminal_run 2 i2 Hkeep) as (Hpolls & Hsusp & _).
    eexists. split; [apply (monitor_terminal script failed job 2 fuel i2); auto with lia |].
    cbn [trace]. repeat split; [exact Hpolls | exact Hsusp |].
    cbn [waiting waiting_round]. rewrite H0, H1. reflexivity.
Qed.
End MonitorClaims.

(** C5. [monitorBulkJob] never lets an exception out, whatever the
    collaborator and the job handle; against a script, when a poll raises
    the monitor writes the error and returns without a further poll, and
    when the fetch of the failed records raises it does the same, with that
    one fetch. *)
Theorem C5_monitor_catches_every_exception :
  (forall (W : Type) (fuel : nat) (org : AppLink.Org W) (result : option AppLink.JobRef)
          (st : State W),
     exists st' status, monitorBulkJob fuel org result st = (st', Ok status))
  /\ (forall script failed job (n fuel : nat) (e : Js.Error),
        (forall i, (i < n)%nat -> keeps_polling (script i) = true) ->
        script n = Err e -> (n < fuel)%nat ->
        exists st,
          monitor_script fuel script failed job = (st, Ok Returned)
          /\ polls (trace st) = S n
          /\ last (trace st) = Some (Console console_error (Error_monitoring_bulk_job e)))
  /\ (forall script job (n fuel : nat) (info : AppLink.JobInfo) (e : Js.Error),
        (forall i, (i < n)%nat -> keeps_polling (script i) = true) ->
        script n = Ok info ->
        AppLink.state info = "JobComplete" -> 0 < AppLink.numberRecordsFailed info ->
        (n < fuel)%nat ->
        exists st,
          monitor_script fuel script (Err e) job = (st, Ok Returned)
          /\ polls (trace st) = S n
          /\ fetches (trace st) = 1%nat
          /\ last (trace st) = Some (Console console_error (Error_monitoring_bulk_job e))).
Proof.
  split; [| split].
  - intros W fuel org result st. unfold monitorBulkJob, try_catch.
    destruct (while_not_complete fuel (monitor_round org result) st) as [st' [status|e]];
      eexists _, _; reflexivity.
  - intros script failed job n fuel e Hkeep Hn Hfuel.
    eexists. split; [apply (monitor_poll_raises script failed job n fuel e); auto |].
    cbn [trace]. split; [| now rewrite last_app].
    destruct (polls_waiting script job n Hkeep) as (Hp & _).
    unfold polls in *. rewrite count_events_app, Hp. cbn. lia.
  - intros script job n fuel info e Hkeep Hn Hstate Hpos Hfuel.
    assert (Hterm : is_terminal info = true) by (unfold is_terminal; now rewrite Hstate).
    eexists. split; [apply (monitor_terminal script (Err e) job n fuel info); auto |].
    cbn [trace].
    destruct (counts_terminal_run script (Err e) job n info Hkeep) as (Hp & _ & Hf & _).
    apply Z.ltb_lt in Hpos.
    rewrite Hp, Hf, Hstate, Hpos. repeat split.
    unfold finalization. rewrite Hstate, Hpos. cbn. now rewrite !last_app.
Qed.


(** The console output of the README: queued, in progress, complete. *)
Lemma C3_witness :
  exists st,
    monitor_script 10 (script_of [Ok (AppLink.mkJobInfo "Queued" 0 0);
                                  Ok (AppLink.mkJobInfo "InProgress" 500 0)]
                                 (Ok (AppLink.mkJobInfo "JobComplete" 1000 0)))
                   (Ok []) (AppLink.mkJobRef "750xx00000GtITrXXX")
    = (st, Ok Returned)
    /\ polls (trace st) = 3%nat
    /\ success_logs (trace st) = 1%nat
    /\ last (trace st)
       = Some (Console console_log (Job_completed_successfully "750xx00000GtITrXXX" 1000)).
Proof.
  destruct (C3_monitor_finalizes_on_a_terminal_snapshot
              (script_of [Ok (AppLink.mkJobInfo "Queued" 0 0);
                          Ok (AppLink.mkJobInfo "InProgress" 500 0)]
                         (Ok (AppLink.mkJobInfo "JobComplete" 1000 0)))
              (Ok []) (AppLink.mkJobRef "750xx00000GtITrXXX")
              2%nat 10%nat (AppLink.mkJobInfo "JobComplete" 1000 0))
    as (st & Hrun & Hpolls & _ & Hsuccess & _).
  - intros [|[|i]] Hi; [reflexivity | reflexivity | lia].
  - reflexivity.
  - reflexivity.
  - lia.
  - destruct (Hsuccess eq_refl eq_refl) as (Hlogs & _ & Hlast).
    exists st. repeat split; assumption.
Defined.

Lemma C4_witness :
  exists st,
    monitor_script 10 (script_of [Ok (AppLink.mkJobInfo "Queued" 0 0);
                                  Ok (AppLink.mkJobInfo "InProgress" 500 0)]
                                 (Ok (AppLink.mkJobInfo "JobComplete" 1000 0)))
                   (Ok []) (AppLink.mkJobRef "750xx00000GtITrXXX")
    = (st, Ok Returned)
    /\ polls (trace st) = 3%nat
    /\ suspensions (trace st) = 2%nat.
Proof.
  destruct (C4_monitor_polls_every_five_seconds_until_stopped
              (script_of [Ok (AppLink.mkJobInfo "Queued" 0 0);
                          Ok (AppLink.mkJobInfo "InProgress" 500 0)]
                         (Ok (AppLink.mkJobInfo "JobComplete" 1000 0)))
              (Ok []) (AppLink.mkJobRef "750xx00000GtITrXXX"))
    as (_ & _ & _ & _ & Hthree).
  destruct (Hthree (AppLink.mkJobInfo "Queued" 0 0) (AppLink.mkJobInfo "InProgress" 500 0)
              (AppLink.mkJobInfo "JobComplete" 1000 0) 10%nat)
    as (st & Hrun & Hpolls & Hsusp & _); try reflexivity; [lia |].
  exists st. repeat split; assumption.
Defined.

Lemma C5_witness :
  exists st,
    monitor_script 10 (script_of [Ok (AppLink.mkJobInfo "Queued" 0 0)]
                                 (Err (Js.mkError "Error" "socket hang up")))
                   (Ok []) (AppLink.mkJobRef "750xx00000GtITrXXX")
    = (st, Ok Returned)
    /\ polls (trace st) = 2%nat
    /\ last (trace st)
       = Some (Console console_error (Error_monitoring_bulk_job (Js.mkError "Error" "socket hang up"))).
Proof.
  destruct C5_monitor_catches_every_exception as (_ & Hpoll & _).
  apply (Hpoll (script_of [Ok (AppLink.mkJobInfo "Queued" 0 0)]
                          (Err (Js.mkError "Error" "socket hang up")))
               (Ok []) (AppLink.mkJobRef "750xx00000GtITrXXX") 1%nat 10%nat).
  - intros [|i] Hi; [reflexivity | lia].
  - reflexivity.
  - lia.
Defined.

(** * Further properties *)

(** ** The configured names *)
Lemma split_nonempty (sep : ascii) (s : string) : Js.split sep s <> [].
Proof.
  destruct s as [|c s]; cbn; [discriminate |].
  destruct (decide (c = sep)); [discriminate |].
  destruct (Js.split sep s); discriminate.
Qed.

Lemma concat_split (sep : ascii) (s : string) :
  String.concat (String sep EmptyString) (Js.split sep s) = s.
Proof.
  induction s as [|c s IH]; [reflexivity |].
  cbn [Js.split]. destruct (decide (c = sep)) as [->|Hne].
  - pose proof (split_nonempty sep s) as Hs.
    destruct (Js.split sep s) as [|p ps] eqn:Hsplit; [congruence |].
    cbn [String.concat]. cbn [String.concat] in IH. now rewrite IH.
  - pose proof (split_nonempty sep s) as Hs.
    destruct (Js.split sep s) as [|p ps] eqn:Hsplit; [congruence |].
    rewrite <- IH. now destruct ps.
Qed.

Lemma split_pieces (sep : ascii) (s : string) :
  Forall (λ p, count_char sep p = 0%nat) (Js.split sep s)
  /\ length (Js.split sep s) = S (count_char sep s).
Proof.
  induction s as [|c s [IHall IHlen]]; [split; [repeat constructor | reflexivity] |].
  cbn [Js.split count_char]. destruct (decide (c = sep)) as [->|Hne].
  - split; [constructor; [reflexivity | exact IHall] | cbn; now rewrite IHlen].
  - pose proof (split_nonempty sep s) as Hs.
    destruct (Js.split sep s) as [|p ps]; [congruence |].
    inversion IHall as [|? ? Hp Hps]; subst.
    split; [| exact IHlen].
    constructor; [| exact Hps]. cbn. rewrite decide_False by exact Hne. exact Hp.
Qed.


Section Configuration.
Context {W : Type} (h : Host W).

(** X1. The configured names are the pieces of [CONNECTION_NAMES] between
    its commas: put together again with commas they give the variable back,
    none of them holds a comma and there is one more of them than commas;
    with the variable unset or empty there is no name at all. *)
Theorem X1_connection_names_are_the_comma_separated_pieces :
  (CONNECTION_NAMES h = None \/ CONNECTION_NAMES h = Some "" -> connectionNames h = [])
  /\ (forall s, CONNECTION_NAMES h = Some s -> s <> "" ->
        String.concat "," (connectionNames h) = s
        /\ Forall (λ n, count_char "," n = 0%nat) (connectionNames h)
        /\ length (connectionNames h) = S (count_char "," s)).
Proof.
  split.
  - unfold connectionNames. now intros [-> | ->].
  - intros s Henv Hne. unfold connectionNames. rewrite Henv.
    destruct s as [|c s]; [congruence |].
    split; [apply (concat_split ","%char) | apply (split_pieces ","%char)].
Qed.

End Configuration.






Section GeneratorShapes.
Context {W : Type} (h : Host W).

(** What [generateAddress] returns, part by part. *)
Lemma generateAddress_value (st : State W) :
  exists (n z : Z) (name type_ c : string) (s : UsState),
    generateAddress h st
    = (mkState (world st) (drawn st + 6) (trace st),
       Ok (mkAddress (Js.toString n +:+ " " +:+ name +:+ " " +:+ type_)
                     (Some c) (state_name s) (abbr s) (Js.toString z)))
    /\ 100 <= n <= 9999
    /\ name ∈ streetNames /\ type_ ∈ streetTypes /\ c ∈ cities /\ s ∈ states
    /\ 10000 <= z <= 99999.
Proof.
  unfold generateAddress, Math_random, lift, mbind, M_bind, mret, M_ret.
  cbn [world drawn trace].
  replace (drawn st + 6)%nat with (S (S (S (S (S (S (drawn st))))))) by lia.
  destruct (pick_is_Some streetNames (random_at h (S (drawn st))))
    as (name & Hname & Hname_in); [discriminate |].
  destruct (pick_is_Some streetTypes (random_at h (S (S (drawn st)))))
    as (type_ & Htype & Htype_in); [discriminate |].
  destruct (pick_is_Some cities (random_at h (S (S (S (drawn st))))))
    as (c & Hc & Hc_in); [discriminate |].
  destruct (pick_is_Some states (random_at h (S (S (S (S (drawn st)))))))
    as (s & Hs & Hs_in); [discriminate |].
  rewrite Hname, Htype, Hc, Hs. cbn [Js.interpolate].
  pose proof (floor_scaled_range (random_at h (drawn st)) 9900 ltac:(lia)).
  pose proof (floor_scaled_range (random_at h (S (S (S (S (S (drawn st))))))) 90000
                ltac:(lia)).
  eexists _, _, name, type_, c, s. split; [reflexivity |].
  repeat split; try assumption; lia.
Qed.

(** X2. [generateAddress] always returns, after six draws and without any
    other effect: the street is a number from 100 to 9999, a street name
    and a street type of the lists; the city is one of the cities; the
    state and its abbreviation come from one and the same entry; the zip is
    the numeral of a number from 10000 to 99999. *)
Theorem X2_generated_address_is_in_range (st : State W) :
  exists address (n z : Z) (name type_ : string) (s : UsState),
    generateAddress h st = (mkState (world st) (drawn st + 6) (trace st), Ok address)
    /\ street address = Js.toString n +:+ " " +:+ name +:+ " " +:+ type_
    /\ 100 <= n <= 9999 /\ name ∈ streetNames /\ type_ ∈ streetTypes
    /\ (exists c, city address = Some c /\ c ∈ cities)
    /\ s ∈ states /\ addr_state address = state_name s /\ stateAbbr address = abbr s
    /\ zip address = Js.toString z /\ 10000 <= z <= 99999.
Proof.
  destruct (generateAddress_value st)
    as (n & z & name & type_ & c & s & Heq & Hn & Hname & Htype & Hc & Hs & Hz).
  eexists _, n, z, name, type_, s. split; [exact Heq |].
  cbn [street city addr_state stateAbbr zip].
  repeat split; try assumption; try lia. eauto.
Qed.


End GeneratorShapes.

(** ** The rows of the bulk table *)
Section TableRows.
Context {W : Type} (h : Host W).

End TableRows.

(** ** The paths of the bulk demo *)
Section BulkDemoPaths.
Context {W : Type} (h : Host W).

Ltac await_step H :=
  unfold mbind at 1, M_bind at 1, await at 1; cbn [world drawn trace]; rewrite H.
Ltac emit_step :=
  unfold mbind at 1, M_bind at 1, emit at 1; cbn [world drawn trace].

Lemma includes_true (xs : list string) (x : string) : x ∈ xs -> Js.includes xs x = true.
Proof. apply bool_decide_eq_true_2. Qed.

(** X4. With [empty-org] resolved and an account named like the bulk
    accounts already there, the handler submits nothing: it makes the two
    calls, draws no random number, starts no monitor and answers with the
    number of records found and [EXISTING_RECORDS]. *)
Theorem X4_bulk_demo_skips_submission_when_records_exist (req : Request) (w w1 w2 : W) (d : nat)
    (org : AppLink.Org W) (queryResult : AppLink.QueryResult) :
  "empty-org" ∈ connectionNames h ->
  AppLink.getAuthorization (sdk h) "empty-org" w = (w1, Ok org) ->
  AppLink.dataApi_query org "SELECT Id FROM Account WHERE Name LIKE 'Bulk Account%'" w1
  = (w2, Ok queryResult) ->
  AppLink.records queryResult <> [] ->
  get_bulk_demo h req (mkState w d [])
  = (mkState w2 d
       [Call_getAuthorization "empty-org";
        Console console_log
          (Connected_to_empty_org (AppLink.id org) (AppLink.user_username org));
        Call_query (AppLink.id org) "SELECT Id FROM Account WHERE Name LIKE 'Bulk Account%'";
        Console console_log
          (Query_results (AppLink.totalSize queryResult) (AppLink.done queryResult)
             (length (AppLink.records queryResult)))],
     Ok (Json [("message",
                Js.Str ("Found "
                          +:+ Js.toString (Z.of_nat (length (AppLink.records queryResult)))
                          +:+ " existing bulk-created records"));
               ("status", Js.Str "EXISTING_RECORDS")])).
Proof.
  intros Hin Hauth Hquery Hsome.
  unfold get_bulk_demo, try_catch. rewrite (includes_true _ _ Hin). cbn [negb].
  await_step Hauth. emit_step.
  change SOQL_BULK_ACCOUNTS
    with "SELECT Id FROM Account WHERE Name LIKE 'Bulk Account%'".
  await_step Hquery. emit_step.
  destruct (AppLink.records queryResult) as [|r rs] eqn:Hrs; [congruence |].
  reflexivity.
Qed.




(** X8. On an [undefined] job handle the monitor polls once and, whatever
    the snapshot it gets, fails on the job id before anything is written
    about the status: its own [catch] writes the [TypeError] and it
    returns, without a suspension or a second poll. *)
Theorem X8_monitor_on_undefined_handle_stops_after_one_poll (fuel : nat) (org : AppLink.Org W) (w w' : W)
    (d : nat) (t : list Event) (info : AppLink.JobInfo) :
  AppLink.bulkApi_getInfo org None w = (w', Ok info) ->
  monitorBulkJob (S fuel) org None (mkState w d t)
  = (mkState w' d
       (t ++ [Call_getInfo None;
              Console console_error
                (Error_monitoring_bulk_job
                   (Js.mkError "TypeError"
                      "Cannot read properties of undefined (reading 'id')"))]),
     Ok Returned).
Proof.
  intros Hinfo. unfold monitorBulkJob, try_catch. cbn [while_not_complete].
  unfold monitor_round, await, mbind, M_bind, mret, M_ret, lift, emit.
  cbn. rewrite Hinfo. cbn. now rewrite <- app_assoc.
Qed.
End BulkDemoPaths.

(** ** Bounds on the monitor *)
Section MonitorBounds.
Context (script : nat -> Res AppLink.JobInfo) (failed : Res AppLink.FailedResults)
        (job : AppLink.JobRef).

(** X9. After any number of rounds against any script the monitor has
    polled at most once per round, has suspended as often as it has polled
    or once less, and has either fetched the failed records once, or
    written one success line, or neither; as long as it is polling it has
    suspended after every poll and done neither. *)
Theorem X9_monitor_trace_bounds (fuel : nat) :
  let t := trace (fst (monitor_script fuel script failed job)) in
  (polls t <= fuel)%nat
  /\ (suspensions t <= polls t <= S (suspensions t))%nat
  /\ (fetches t + success_logs t <= 1)%nat
  /\ (snd (monitor_script fuel script failed job) = Ok StillPolling ->
      polls t = fuel /\ suspensions t = fuel
      /\ fetches t = 0%nat /\ success_logs t = 0%nat).
Proof.
  intros t. subst t.
  destruct (monitor_cases script failed job fuel)
    as [(Hkeep & ->) | (m & Hm & Hkeep & Hstop & ->)]; cbn [fst snd trace].
  - destruct (polls_waiting script job fuel Hkeep) as (Hp & Hs & Hf & Hl).
    rewrite Hp, Hs, Hf, Hl. repeat split; lia.
  - unfold last_round. destruct (script m) as [info|e] eqn:Hscript.
    + destruct (counts_terminal_run script failed job m info Hkeep) as (Hp & Hs & Hf & Hl).
      rewrite Hp, Hs, Hf, Hl.
      repeat split; try lia; try discriminate.
      destruct (String.eqb _ _), (0 <? _); cbn; lia.
    + destruct (polls_waiting script job m Hkeep) as (Hp & Hs & Hf & Hl).
      unfold polls, suspensions, fetches, success_logs in *.
      rewrite !count_events_app, Hp, Hs, Hf, Hl. cbn.
      repeat split; try lia; discriminate.
Qed.
End MonitorBounds.


Lemma mapM_project_err (rs : list AppLink.SfRecord) :
  Exists (λ r, AppLink.fields r = None) rs ->
  mapM project rs = Err (Js.TypeError_undefined "Name").
Proof.
  induction rs as [|r rs IH]; intros Hex; [now apply Exists_nil in Hex |].
  apply Exists_cons in Hex. destruct r as [[bag|]].
  - destruct Hex as [Hr | Hrs]; [discriminate |].
    cbn. specialize (IH Hrs). cbn in IH. now rewrite IH.
  - reflexivity.
Qed.

Section FanOutOutcomes.
Context (h : Host unit).


(** X11. Against a collaborator without state, one record without a field
    bag fails the whole connection: its outcome is the failure shape with
    the [TypeError] text and no accounts, whatever the other records. *)
Theorem X11_fanout_malformed_record_fails_the_connection
    (req : Request) (schedule : list nat) (k : nat) (name : string)
    (org : AppLink.Org unit) (queryResult : AppLink.QueryResult) :
  connectionNames h !! k = Some name ->
  snd (AppLink.getAuthorization (sdk h) (Js.trim name) tt) = Ok org ->
  snd (AppLink.dataApi_query org "SELECT Name, Id FROM Account" tt) = Ok queryResult ->
  Exists (λ r, AppLink.fields r = None) (AppLink.records queryResult) ->
  complete_schedule (length (connectionNames h)) schedule = true ->
  exists outs,
    response (get_index h req tt schedule) = Some (Render "pages/index" outs)
    /\ outs !! k
       = Some (mkOutcome (Js.trim name)
                 (Some "Cannot read properties of undefined (reading 'Name')") []).
Proof.
  intros Hk Hauth Hquery Hbad Hsched.
  destruct (stateless_outcomes h req schedule Hsched) as (outs & Hresp & _ & Hpos).
  destruct (Hpos k name Hk) as (o & Ho & Hrun).
  assert (Hclosure : run_closure h name
                     = Fulfilled (mkOutcome (Js.trim name)
                                    (Some "Cannot read properties of undefined (reading 'Name')")
                                    [])).
  { unfold run_closure. rewrite Hauth, settle_after_getAuthorization.
    change SOQL_ACCOUNTS with "SELECT Name, Id FROM Account".
    rewrite Hquery, settle_after_query. now rewrite (mapM_project_err _ Hbad). }
  rewrite Hclosure in Hrun. injection Hrun as <-.
  exists outs. split; [exact Hresp | exact Ho].
Qed.

(** X12. Against a collaborator without state the page does not depend on
    the order in which the calls complete. *)
Theorem X12_fanout_page_independent_of_completion_order
    (req : Request) (schedule schedule' : list nat) :
  complete_schedule (length (connectionNames h)) schedule = true ->
  complete_schedule (length (connectionNames h)) schedule' = true ->
  response (get_index h req tt schedule) = response (get_index h req tt schedule').
Proof.
  intros Hs Hs'.
  destruct (stateless_outcomes h req schedule Hs) as (outs & -> & Hlen & Hpos).
  destruct (stateless_outcomes h req schedule' Hs') as (outs' & -> & Hlen' & Hpos').
  do 2 f_equal. apply list_eq. intros i.
  destruct (connectionNames h !! i) as [name|] eqn:Hi.
  - destruct (Hpos i name Hi) as (o & -> & Hrun).
    destruct (Hpos' i name Hi) as (o' & -> & Hrun'). congruence.
  - apply lookup_ge_None in Hi.
    rewrite !(proj2 (lookup_ge_None _ _)) by lia. reflexivity.
Qed.
End FanOutOutcomes.

Section FanOutSettled.
Context {W : Type} (h : Host W).

Lemma advance_settled (fo : FanOut W) (i : nat) :
  Forall (λ c, remaining (stage c) = 0%nat) (closures fo) -> advance h fo i = fo.
Proof.
  intros Hall. unfold advance.
  pose proof (resume_spec h i (run_state fo) (closures fo)) as Hr.
  destruct (resume h i (run_state fo) (closures fo)) as [st [s|]]; [| reflexivity].
  destruct Hr as (c & Hc & _ & Hlt).
  rewrite Forall_forall in Hall.
  specialize (Hall c (list_elem_of_lookup_2 _ _ _ Hc)). lia.
Qed.

(** X13. Once every call has completed, nothing is left pending: further
    completions change neither the response, nor the trace, nor the world. *)
Theorem X13_fanout_late_completions_change_nothing
    (req : Request) (w0 : W) (schedule more : list nat) :
  complete_schedule (length (connectionNames h)) schedule = true ->
  get_index h req w0 (schedule ++ more) = get_index h req w0 schedule.
Proof.
  intros Hcomplete. unfold get_index. rewrite foldl_app.
  fold (get_index h req w0 schedule).
  assert (Hsettled : Forall (λ c, remaining (stage c) = 0%nat)
                            (closures (get_index h req w0 schedule))).
  { destruct (complete_resolves h req w0 schedule Hcomplete) as (outs & Hall & _).
    destruct (invariant_get_index h req w0 schedule) as (_ & _ & Hinv & _).
    rewrite Hinv in Hall. unfold all_of in Hall.
    destruct (mapM fulfilled_value _) as [values|] eqn:Hm; [| discriminate].
    apply mapM_Some_1 in Hm. apply Forall_lookup. intros i c Hc.
    destruct (Forall2_lookup_l _ _ _ _ _ Hm Hc) as (o & _ & Ho).
    unfold fulfilled_value in Ho. now destruct (stage c). }
  induction more as [|i more IH]; [reflexivity |].
  cbn [foldl]. now rewrite (advance_settled _ i Hsettled).
Qed.
End FanOutSettled.

(** ** The queries of the fan-out *)
Lemma filter_insert_length {A} (p : A -> bool) (l : list A) (i : nat) (x y : A) :
  l !! i = Some x ->
  (length (List.filter p (<[i := y]> l)) + (if p x then 1 else 0)
   = length (List.filter p l) + (if p y then 1 else 0))%nat.
Proof.
  revert i. induction l as [|a l IH]; intros [|i] Hi; try discriminate.
  - injection Hi as ->. simpl. destruct (p x), (p y); simpl; lia.
  - simpl in Hi. specialize (IH i Hi). simpl. destruct (p a); simpl; lia.
Qed.

Section FanOutQueries.
Context (h : Host unit).

Lemma respond_no_query (p q : Promise (list PerConnectionOutcome)) (st : State unit) :
  count_events is_query (trace (fst (respond p q st))) = count_events is_query (trace st).
Proof.
  unfold respond, after_all, try_catch, mbind, M_bind, mret, M_ret, lift, emit.
  destruct p as [|v|e], q as [|v'|e']; cbn [fst trace]; try reflexivity.
  now rewrite count_events_app, Nat.add_0_r.
Qed.

Lemma resume_queries (j : nat) (st : State unit) (cs : list (Closure unit))
    (c : Closure unit) :
  cs !! j = Some c -> on_path h c ->
  match resume h j st cs with
  | (st', Some s) =>
      (count_events is_query (trace st') + (if has_queried h c then 1 else 0)
       = count_events is_query (trace st)
         + (if has_queried h (mkClosure (captured c) s) then 1 else 0))%nat
  | (st', None) => st' = st
  end.
Proof.
  intros Hc Hpath. unfold resume. rewrite Hc.
  destruct c as [name [|org|o|e]]; try reflexivity.
  - destruct (world st).
    destruct (AppLink.getAuthorization (sdk h) (Js.trim name) ()) as [w r] eqn:Hauth.
    unfold has_queried, authorized. cbn [stage captured]. rewrite Hauth. cbn [snd].
    unfold settle, after_getAuthorization, try_catch, on_error, mbind, M_bind,
      mret, M_ret, lift, emit.
    destruct r as [org|e]; cbn [with_world world drawn trace stage captured];
      rewrite ?count_events_app; cbn; lia.
  - destruct (world st).
    destruct (AppLink.dataApi_query org SOQL_ACCOUNTS ()) as [w r] eqn:Hq.
    unfold on_path in Hpath. cbn [stage captured] in Hpath.
    unfold has_queried, authorized. cbn [stage captured]. rewrite Hpath.
    unfold settle, after_query, try_catch, on_error, mbind, M_bind,
      mret, M_ret, lift, emit.
    destruct r as [qr|e]; cbn [with_world world drawn trace stage captured];
      [destruct (mapM project (AppLink.records qr)) |];
      cbn [with_world world drawn trace stage captured];
      rewrite ?count_events_app; cbn; lia.
Qed.

Lemma advance_queries (fo : FanOut unit) (j : nat) :
  Forall (on_path h) (closures fo) ->
  count_events is_query (trace (run_state fo))
  = length (List.filter (has_queried h) (closures fo)) ->
  count_events is_query (trace (run_state (advance h fo j)))
  = length (List.filter (has_queried h) (closures (advance h fo j))).
Proof.
  intros Hpath Hcount. unfold advance.
  destruct (closures fo !! j) as [c|] eqn:Hc.
  - assert (Hj : on_path h c).
    { rewrite Forall_forall in Hpath. eapply Hpath, list_elem_of_lookup_2, Hc. }
    pose proof (resume_queries j (run_state fo) (closures fo) c Hc Hj) as Hr.
    destruct (resume h j (run_state fo) (closures fo)) as [st [s|]]; [| exact Hcount].
    match goal with
    | |- context [respond ?p ?q st] =>
        pose proof (respond_no_query p q st) as Hresp;
        destruct (respond p q st) as [st' sent]
    end.
    cbn [run_state closures fst] in *. rewrite Hresp.
    pose proof (filter_insert_length (has_queried h) (closures fo) j c
                  (mkClosure (captured c) s) Hc) as Hins.
    lia.
  - unfold resume. rewrite Hc. exact Hcount.
Qed.

(** X14. Against a collaborator without state, the queries issued never
    outnumber the authorized connections, and once every call has completed
    there is exactly one query per authorized connection: a refused
    connection is never queried. *)
Theorem X14_fanout_queries_only_authorized_connections
    (req : Request) (schedule : list nat) :
  (count_events is_query (trace (run_state (get_index h req tt schedule)))
   <= length (List.filter (authorized h) (connectionNames h)))%nat
  /\ (complete_schedule (length (connectionNames h)) schedule = true ->
      count_events is_query (trace (run_state (get_index h req tt schedule)))
      = length (List.filter (authorized h) (connectionNames h))).
Proof.
  assert (Hcount : count_events is_query (trace (run_state (get_index h req tt schedule)))
                   = length (List.filter (has_queried h)
                               (closures (get_index h req tt schedule)))).
  { unfold get_index.
    assert (H0 : count_events is_query (trace (run_state (begin_index h tt)))
                 = length (List.filter (has_queried h) (closures (begin_index h tt)))).
    { rewrite begin_index_spec. cbn [run_state closures trace].
      generalize (connectionNames h). intros names.
      induction names as [|n ns IH]; [reflexivity | exact IH]. }
    assert (P0 : Forall (on_path h) (closures (begin_index h tt))).
    { rewrite begin_index_spec. cbn [closures]. apply Forall_fmap, Forall_forall.
      now intros. }
    revert H0 P0. generalize (begin_index h tt).
    induction schedule as [|j schedule IH]; intros fo Hfo Pfo; [exact Hfo |].
    cbn [foldl]. apply IH; [now apply advance_queries | now apply on_path_advance]. }
  destruct (invariant_get_index h req tt schedule) as (Hnames & _).
  assert (Hle : forall cs : list (Closure unit),
             (length (List.filter (has_queried h) cs)
              <= length (List.filter (authorized h) (captured <$> cs)))%nat).
  { induction cs as [|c cs IH]; [reflexivity |]. cbn.
    unfold has_queried at 1. destruct (stage c), (authorized h (captured c)); cbn; lia. }
  split.
  - rewrite Hcount, <- Hnames. apply Hle.
  - intros Hcomplete. rewrite Hcount, <- Hnames.
    destruct (complete_resolves h req tt schedule Hcomplete) as (outs & Hall & _).
    destruct (invariant_get_index h req tt schedule) as (_ & _ & Hinv & _).
    rewrite Hinv in Hall. unfold all_of in Hall.
    destruct (mapM fulfilled_value _) as [values|] eqn:Hm; [| discriminate].
    apply mapM_Some_1, Forall2_Forall_l with (Q := λ c, fulfilled_value c <> None) in Hm.
    2:{ apply Forall_forall. intros o _ c Hc. congruence. }
    clear -Hm. induction Hm as [|c cs Hc _ IH]; [reflexivity |].
    cbn. unfold fulfilled_value in Hc. unfold has_queried at 1.
    destruct (stage c); try congruence; destruct (authorized h (captured c)); cbn; lia.
Qed.
End FanOutQueries.

(** ** The further properties at work *)

Lemma X1_witness :
  String.concat "," (connectionNames spaced_names) = "my-org, empty-org"
  /\ length (connectionNames spaced_names) = 2%nat.
Proof.
  destruct (proj2 (X1_connection_names_are_the_comma_separated_pieces spaced_names)
              "my-org, empty-org" eq_refl)
    as (Hconcat & _ & Hlength); [discriminate |].
  split; [exact Hconcat | exact Hlength].
Defined.

Lemma X4_witness :
  get_bulk_demo populated_names no_request (mkState tt 0%nat [])
  = (mkState tt 0%nat
       [Call_getAuthorization "empty-org";
        Console console_log (Connected_to_empty_org "00Dxx0000000003" "admin@example.com");
        Call_query "00Dxx0000000003"
          "SELECT Id FROM Account WHERE Name LIKE 'Bulk Account%'";
        Console console_log (Query_results 1 true 1)],
     Ok (Json [("message", Js.Str "Found 1 existing bulk-created records");
               ("status", Js.Str "EXISTING_RECORDS")])).
Proof.
  apply (X4_bulk_demo_skips_submission_when_records_exist populated_names no_request
           tt tt tt 0%nat (scenario_org "00Dxx0000000003" [acme])
           (AppLink.mkQueryResult 1 true [acme])).
  - apply list_elem_of_In. vm_compute. auto.
  - reflexivity.
  - reflexivity.
  - discriminate.
Defined.




Lemma X8_witness :
  monitorBulkJob 5 (scripted_org (script_of [] (Ok (AppLink.mkJobInfo "Queued" 0 0)))
                                 (Ok []))
                 None (mkState 0%nat 0%nat [])
  = (mkState 1%nat 0%nat
       [Call_getInfo None;
        Console console_error
          (Error_monitoring_bulk_job
             (Js.mkError "TypeError" "Cannot read properties of undefined (reading 'id')"))],
     Ok Returned).
Proof.
  apply (X8_monitor_on_undefined_handle_stops_after_one_poll 4
           (scripted_org (script_of [] (Ok (AppLink.mkJobInfo "Queued" 0 0))) (Ok []))
           0%nat 1%nat 0%nat [] (AppLink.mkJobInfo "Queued" 0 0)).
  reflexivity.
Defined.

Lemma X9_witness :
  polls (trace (fst (monitor_script 2
                       (script_of [Ok (AppLink.mkJobInfo "Queued" 0 0);
                                   Ok (AppLink.mkJobInfo "InProgress" 500 0)]
                                  (Ok (AppLink.mkJobInfo "JobComplete" 1000 0)))
                       (Ok []) (AppLink.mkJobRef "750xx00000GtITrXXX"))))
  = 2%nat.
Proof.
  destruct (X9_monitor_trace_bounds
              (script_of [Ok (AppLink.mkJobInfo "Queued" 0 0);
                          Ok (AppLink.mkJobInfo "InProgress" 500 0)]
                         (Ok (AppLink.mkJobInfo "JobComplete" 1000 0)))
              (Ok []) (AppLink.mkJobRef "750xx00000GtITrXXX") 2%nat)
    as (_ & _ & _ & Hpolling).
  exact (proj1 (Hpolling eq_refl)).
Defined.


Lemma X11_witness :
  exists outs,
    response (get_index malformed_names no_request tt [0; 0]%nat)
    = Some (Render "pages/index" outs)
    /\ outs !! 0%nat
       = Some (mkOutcome "org-a"
                 (Some "Cannot read properties of undefined (reading 'Name')") []).
Proof.
  apply (X11_fanout_malformed_record_fails_the_connection malformed_names no_request
           [0; 0]%nat 0%nat "org-a"
           (scenario_org "00Dxx0000000001" [acme; AppLink.mkRecord None])
           (AppLink.mkQueryResult 2 true [acme; AppLink.mkRecord None])).
  - reflexivity.
  - reflexivity.
  - reflexivity.
  - apply Exists_cons_tl, Exists_cons_hd. reflexivity.
  - reflexivity.
Defined.

Lemma X12_witness :
  response (get_index two_orgs no_request tt [1; 0; 1; 0]%nat)
  = response (get_index two_orgs no_request tt [0; 0; 1; 1]%nat).
Proof.
  apply (X12_fanout_page_independent_of_completion_order two_orgs no_request);
    reflexivity.
Defined.

Lemma X13_witness :
  get_index two_orgs no_request tt ([1; 0; 1; 0] ++ [0; 1; 1])%nat
  = get_index two_orgs no_request tt [1; 0; 1; 0]%nat.
Proof.
  apply (X13_fanout_late_completions_change_nothing two_orgs no_request tt).
  reflexivity.
Defined.

Lemma X14_witness :
  count_events is_query
    (trace (run_state (get_index two_orgs no_request tt [1; 0; 1; 0]%nat)))
  = 1%nat.
Proof.
  destruct (X14_fanout_queries_only_authorized_connections two_orgs no_request
              [1; 0; 1; 0]%nat)
    as (_ & Hexact).
  rewrite (Hexact eq_refl). reflexivity.
Defined.
